(** * libcodepoint: the [unicode] command-line front end (example.c)

    A shallow embedding of [example.c], the program that parses a code
    point from its command line, queries the libcodepoint engine and
    prints the answers, together with the properties its specification
    states about it.

    Layout:
    - [Libc]: the few C library functions [main] calls ([tolower],
      [strcmp], [strtol], the [%d] and [%s] conversions of [printf]),
      after ISO C for the "C" locale;
    - [QueryEngine]: the query engine of [codepoints.h], which is not part
      of the sources at hand, modelled from the specification;
    - [ExampleC]: [print_usage_and_quit] and [main], statement by
      statement, in a small monad that threads standard output, the
      engine calls made so far and a possible [exit];
    - the lemmas and theorems. *)

From Stdlib Require Import ZArith List Bool Ascii String Lia DecimalString.
From Stdlib Require DecimalZ DecimalFacts.
From Equations Require Import Equations.
Import ListNotations.

Open Scope string_scope.
Open Scope Z_scope.

(* ===================================================================== *)
(** * C library functions used by [main] *)
(* ===================================================================== *)

Module Libc.

(** The value of a [char] read as an [unsigned char]. *)
Definition char_code (c : ascii) : Z := Z.of_N (N_of_ascii c).

(** [*s] for a C string: its first character, or the terminating NUL. *)
Definition deref (s : string) : ascii :=
  match s with
  | EmptyString => zero
  | String c _ => c
  end.

(** [s + 1] for a C string that is not at its terminator. *)
Definition advance (s : string) : string :=
  match s with
  | EmptyString => EmptyString
  | String _ s' => s'
  end.

(** [isspace] in the "C" locale: space, and [\t \n \v \f \r]. *)
Definition isspace (c : Z) : bool :=
  (c =? 32) || ((9 <=? c) && (c <=? 13)).

(** [tolower] in the "C" locale. *)
Definition tolower (c : Z) : Z :=
  if (65 <=? c) && (c <=? 90) then c + 32 else c.

(** [strcmp]: ISO C fixes the sign of the result only, which is that of
    the difference of the first pair of differing characters (as
    [unsigned char]), a string that ends first being the lesser. *)
Fixpoint strcmp (a b : string) : Z :=
  match a, b with
  | EmptyString, EmptyString => 0
  | EmptyString, String _ _ => -1
  | String _ _, EmptyString => 1
  | String x a', String y b' =>
      if char_code x =? char_code y then strcmp a' b'
      else if char_code x <? char_code y then -1 else 1
  end.

(** [long] on the LP64 targets the program is built for. *)
Definition LONG_MAX : Z := 9223372036854775807.
Definition LONG_MIN : Z := - 9223372036854775808.

(** The value of a character as a digit: [0-9], then letters of either
    case for 10 to 35. *)
Definition digit_value (c : Z) : option Z :=
  if (48 <=? c) && (c <=? 57) then Some (c - 48)
  else if (97 <=? c) && (c <=? 122) then Some (c - 97 + 10)
  else if (65 <=? c) && (c <=? 90) then Some (c - 65 + 10)
  else None.

Definition digit_in_base (base : Z) (c : ascii) : option Z :=
  match digit_value (char_code c) with
  | Some d => if d <? base then Some d else None
  | None => None
  end.

Fixpoint skip_space (s : string) : string :=
  match s with
  | EmptyString => EmptyString
  | String c s' => if isspace (char_code c) then skip_space s' else s
  end.

(** An optional sign: [true] for a minus. *)
Definition take_sign (s : string) : bool * string :=
  match s with
  | EmptyString => (false, s)
  | String c s' =>
      if char_code c =? 45 then (true, s')
      else if char_code c =? 43 then (false, s')
      else (false, s)
  end.

(** In base 16 an optional [0x] or [0X] may precede the digits; it is
    part of the number only when a hexadecimal digit follows it. *)
Definition skip_hex_prefix (base : Z) (s : string) : string :=
  if base =? 16 then
    match s with
    | String z (String x (String d s')) =>
        if (char_code z =? 48)
           && ((char_code x =? 120) || (char_code x =? 88))
           && (match digit_in_base base d with Some _ => true | None => false end)
        then String d s'
        else s
    | _ => s
    end
  else s.

(** The longest run of digits of the base, accumulated from the left. *)
Fixpoint accumulate (base : Z) (s : string) (acc : Z) : Z :=
  match s with
  | EmptyString => acc
  | String c s' =>
      match digit_in_base base c with
      | Some d => accumulate base s' (acc * base + d)
      | None => acc
      end
  end.

(** [strtol(nptr, NULL, base)] for a base from 2 to 36: white space, an
    optional sign, an optional [0x] in base 16, the digits; 0 when there
    is no digit at all; [LONG_MAX] or [LONG_MIN] when the value does not
    fit a [long]. *)
Definition strtol (nptr : string) (base : Z) : Z :=
  let s := skip_space nptr in
  let '(negative, s) := take_sign s in
  let s := skip_hex_prefix base s in
  let magnitude := accumulate base s 0 in
  let v := if negative then - magnitude else magnitude in
  if v >? LONG_MAX then LONG_MAX
  else if v <? LONG_MIN then LONG_MIN
  else v.

(** The [%d] conversion: the decimal numeral of an [int], with a minus
    sign when negative. *)
Definition print_int (z : Z) : string :=
  NilZero.string_of_int (Z.to_int z).

(** The single argument of the [printf] calls of [main]. *)
Inductive printf_arg : Type :=
| ArgInt (z : Z)
| ArgStr (s : string).

Definition conversion (spec : ascii) (arg : printf_arg) : string :=
  match arg with
  | ArgInt z => if Ascii.eqb spec "d" then print_int z else EmptyString
  | ArgStr s => if Ascii.eqb spec "s" then s else EmptyString
  end.

(** What [printf(fmt, arg)] writes for a format with one conversion
    specification, [%d] or [%s]. *)
Fixpoint format (fmt : string) (arg : printf_arg) : string :=
  match fmt with
  | EmptyString => EmptyString
  | String c rest =>
      if Ascii.eqb c "%" then
        match rest with
        | EmptyString => EmptyString
        | String spec rest' => conversion spec arg ++ rest'
        end
      else String c (format rest arg)
  end.

(** The double quote and the line feed, which a C string literal writes
    with a backslash escape. *)
Definition dquote : ascii := ascii_of_N 34.
Definition newline : ascii := ascii_of_N 10.
Definition nl : string := String newline EmptyString.

(** A key between double quotes, as in the JSON format strings. *)
Definition quoted (key : string) : string :=
  String dquote (key ++ String dquote EmptyString).

End Libc.

(* ===================================================================== *)
(** * The query engine of [codepoints.h] *)
(* ===================================================================== *)

(** [codepoints.h] is generated by the table builder and is not among the
    sources; everything in this module follows the specification
    (data model, query engine and generated artifact). *)

Module QueryEngine.

(** Modelled from the spec: the [codepoint] type of [codepoints.h], a
    32-bit code point, here unsigned as the [u32] fields of the generated
    records. *)
Definition CODEPOINT_BITS : Z := 32.

(** Modelled from the spec: the conversion of a [long] to [codepoint],
    which the C declaration of [codepoint] in [codepoints.h] decides. *)
Definition to_codepoint (v : Z) : Z := v mod 2 ^ CODEPOINT_BITS.

(** Modelled from the spec: the closed set of category tags of a
    CodepointRange. *)
Inductive category : Type :=
| LetterLower | LetterUpper | LetterTitle | LetterOther
| Digit | Space | Control | Punctuation
| Unassigned | Surrogate | Other.

Definition category_eqb (a b : category) : bool :=
  match a, b with
  | LetterLower, LetterLower | LetterUpper, LetterUpper
  | LetterTitle, LetterTitle | LetterOther, LetterOther
  | Digit, Digit | Space, Space | Control, Control
  | Punctuation, Punctuation | Unassigned, Unassigned
  | Surrogate, Surrogate | Other, Other => true
  | _, _ => false
  end.

(** Modelled from the spec: the independent flag bits, in the order the
    data model lists them (the macros [CODEPOINT_LINEBREAK] and the like
    of [codepoints.h]). *)
Definition CODEPOINT_LINEBREAK : Z := 1.
Definition CODEPOINT_CONNECTING : Z := 2.
Definition CODEPOINT_FORMATTING : Z := 4.
Definition CODEPOINT_COMBINING : Z := 8.
Definition CODEPOINT_EMOJI : Z := 16.
Definition CODEPOINT_PRINTABLE : Z := 32.
Definition CODEPOINT_ALPHA : Z := 64.
Definition CODEPOINT_ALNUM : Z := 128.

(** Modelled from the spec: one record of the Range Table. *)
Record CodepointRange : Type := {
  range_start : Z;
  range_end : Z;
  range_category : category;
  range_flags : Z;
  digitValue : option Z;
  caseDeltaLower : Z;
  caseDeltaUpper : Z;
  caseDeltaTitle : Z;
  exceptionFlag : bool
}.

(** Modelled from the spec: one record of the Exception Table. *)
Record ExceptionEntry : Type := {
  exc_codepoint : Z;
  exc_lower : Z;
  exc_upper : Z;
  exc_title : Z
}.

Record Tables : Type := {
  ranges : list CodepointRange;
  exceptions : list ExceptionEntry
}.

(** Modelled from the spec: the binary search of [classify], for the
    greatest range with [start <= cp] among the indices [lo .. hi-1];
    [best] is the candidate found so far. *)
Equations? search (T : list CodepointRange) (cp : Z) (lo hi : nat)
    (best : option CodepointRange) : option CodepointRange
    by wf (hi - lo)%nat lt :=
  search T cp lo hi best with lt_dec lo hi => {
    | right _ := best
    | left _ with nth_error T ((lo + hi) / 2) => {
        | None := best
        | Some r with Z_le_dec (range_start r) cp => {
            | left _ := search T cp (S ((lo + hi) / 2)) hi (Some r)
            | right _ := search T cp lo ((lo + hi) / 2) best } } }.
Proof.
  all: change (fst (Nat.divmod (lo + hi) 1 0 1)) with ((lo + hi) / 2)%nat;
       pose proof (Nat.div_mod_eq (lo + hi) 2) as Hd;
       pose proof (Nat.mod_upper_bound (lo + hi) 2 ltac:(discriminate)) as Hm;
       lia.
Qed.

Definition MAX_CODEPOINT : Z := 1114111.      (* 0x10FFFF *)
Definition SURROGATE_FIRST : Z := 55296.      (* 0xD800 *)
Definition SURROGATE_LAST : Z := 57343.       (* 0xDFFF *)

(** Modelled from the spec: [classify(cp)], a range or [None] for the
    implicit unassigned gap; values outside [0 .. 0x10FFFF] are never
    looked up in the table. *)
Definition classify (T : Tables) (cp : Z) : option CodepointRange :=
  if (0 <=? cp) && (cp <=? MAX_CODEPOINT) then
    match search (ranges T) cp 0 (List.length (ranges T)) None with
    | Some r => if cp <=? range_end r then Some r else None
    | None => None
    end
  else None.

Definition lookup_exception (T : Tables) (cp : Z) : option ExceptionEntry :=
  find (fun e => exc_codepoint e =? cp) (exceptions T).

(** The three case conversions. *)
Inductive direction : Type := Lower | Upper | Title.

Definition caseDelta (d : direction) (r : CodepointRange) : Z :=
  match d with
  | Lower => caseDeltaLower r
  | Upper => caseDeltaUpper r
  | Title => caseDeltaTitle r
  end.

Definition recorded (d : direction) (e : ExceptionEntry) : Z :=
  match d with
  | Lower => exc_lower e
  | Upper => exc_upper e
  | Title => exc_title e
  end.

(** Modelled from the spec: the categories of cased letters to which a
    uniform delta of the given direction applies. *)
Definition cased_for (d : direction) (c : category) : bool :=
  match d, c with
  | Lower, (LetterUpper | LetterTitle) => true
  | Upper, (LetterLower | LetterTitle) => true
  | Title, (LetterLower | LetterUpper) => true
  | _, _ => false
  end.

(** Modelled from the spec: [toLower], [toUpper] and [toTitle]. A range
    with a uniform delta applies it to the cased letters of the
    direction; a range marked as pointing into the Exception Table
    returns the value recorded for the code point; everything else,
    gaps included, is the identity. *)
Definition case_map (d : direction) (T : Tables) (cp : Z) : Z :=
  match classify T cp with
  | None => cp
  | Some r =>
      if exceptionFlag r then
        match lookup_exception T cp with
        | Some e => recorded d e
        | None => cp
        end
      else if cased_for d (range_category r) then cp + caseDelta d r
      else cp
  end.

Definition codepoint_tolower : Tables -> Z -> Z := case_map Lower.
Definition codepoint_toupper : Tables -> Z -> Z := case_map Upper.
Definition codepoint_totitle : Tables -> Z -> Z := case_map Title.

(** Modelled from the spec: the sentinel of [toDigit], outside the range
    of digit values. *)
Definition NOT_A_DIGIT : Z := -1.

Definition codepoint_todigit (T : Tables) (cp : Z) : Z :=
  match classify T cp with
  | Some r =>
      match range_category r, digitValue r with
      | Digit, Some v => v
      | _, _ => NOT_A_DIGIT
      end
  | None => NOT_A_DIGIT
  end.

Definition codepoint_toflags (T : Tables) (cp : Z) : Z :=
  match classify T cp with
  | Some r => range_flags r
  | None => 0
  end.

Definition has_category (c : category) (T : Tables) (cp : Z) : bool :=
  match classify T cp with
  | Some r => category_eqb (range_category r) c
  | None => category_eqb Unassigned c
  end.

Definition has_flag (bit : Z) (T : Tables) (cp : Z) : bool :=
  negb (Z.land (codepoint_toflags T cp) bit =? 0).

Definition codepoint_islower := has_category LetterLower.
Definition codepoint_isupper := has_category LetterUpper.
Definition codepoint_istitle := has_category LetterTitle.
Definition codepoint_isdigit := has_category Digit.
Definition codepoint_isspace := has_category Space.
Definition codepoint_iscntrl := has_category Control.
Definition codepoint_ispunct := has_category Punctuation.
Definition codepoint_isemoji := has_flag CODEPOINT_EMOJI.
Definition codepoint_isprint := has_flag CODEPOINT_PRINTABLE.
Definition codepoint_isalpha := has_flag CODEPOINT_ALPHA.
Definition codepoint_isalnum := has_flag CODEPOINT_ALNUM.

(** Modelled from the spec: [isValid(cp)], decided on the value alone:
    within [0 .. 0x10FFFF] and outside the surrogate range. *)
Definition codepoint_isvalid (cp : Z) : bool :=
  (0 <=? cp) && (cp <=? MAX_CODEPOINT)
  && negb ((SURROGATE_FIRST <=? cp) && (cp <=? SURROGATE_LAST)).

(** A code point has a defined case mapping in a direction when the
    Exception Table lists it, or when a range with a uniform delta and a
    cased category of that direction covers it. *)
Definition listed_exception (T : Tables) (cp : Z) : bool :=
  existsb (fun e => exc_codepoint e =? cp) (exceptions T).

Definition uniformly_mapped (d : direction) (T : Tables) (cp : Z) : bool :=
  existsb (fun r => (range_start r <=? cp) && (cp <=? range_end r)
                    && negb (exceptionFlag r)
                    && cased_for d (range_category r))
          (ranges T).

Definition has_case_mapping (d : direction) (T : Tables) (cp : Z) : bool :=
  listed_exception T cp || uniformly_mapped d T cp.

(** A small table for the examples: ASCII digits and letters, the
    surrogate block, and the two dotted and dotless i of Turkish as
    exceptions. *)
Definition mk_range (lo hi : Z) (c : category) (fl : Z) (dv : option Z)
    (dl du dt : Z) (exc : bool) : CodepointRange :=
  {| range_start := lo; range_end := hi; range_category := c;
     range_flags := fl; digitValue := dv; caseDeltaLower := dl;
     caseDeltaUpper := du; caseDeltaTitle := dt; exceptionFlag := exc |}.

Definition sample_tables : Tables :=
  {| ranges :=
       [ mk_range 0 31 Control 0 None 0 0 0 false;
         mk_range 32 32 Space 33 None 0 0 0 false;
         mk_range 55 55 Digit 160 (Some 7) 0 0 0 false;
         mk_range 65 90 LetterUpper 224 None 32 0 0 false;
         mk_range 97 122 LetterLower 224 None 0 (-32) (-32) false;
         mk_range 304 305 LetterOther 224 None 0 0 0 true;
         mk_range 55296 57343 Surrogate 0 None 0 0 0 false;
         mk_range 128512 128512 Other 48 None 0 0 0 false ];
     exceptions :=
       [ {| exc_codepoint := 304; exc_lower := 105; exc_upper := 304; exc_title := 304 |};
         {| exc_codepoint := 305; exc_lower := 305; exc_upper := 73; exc_title := 73 |} ] |}.

End QueryEngine.

(* ===================================================================== *)
(** * example.c *)
(* ===================================================================== *)

Module ExampleC.
Import Libc.

(** The functions of [codepoints.h] that [main] calls. *)
Inductive engine_fn : Type :=
| Tolower | Toupper | Totitle | Todigit
| Islower | Isupper | Istitle | Isdigit | Isspace
| Iscntrl | Ispunct | Isemoji | Isprint | Isalpha | Isalnum
| Isvalid | Toflags.

(** What [main] needs from [codepoints.h]: every function takes a
    [codepoint] and returns a value that [main] uses as an [int]; the
    four flag masks are macros. *)
Record Engine : Type := {
  engine : engine_fn -> Z -> Z;
  CODEPOINT_LINEBREAK : Z;
  CODEPOINT_CONNECTING : Z;
  CODEPOINT_FORMATTING : Z;
  CODEPOINT_COMBINING : Z
}.

(** The engine of the specification over given tables. *)
Definition engine_of_tables (T : QueryEngine.Tables) : Engine :=
  {| engine := fun f cp =>
       match f with
       | Tolower => QueryEngine.codepoint_tolower T cp
       | Toupper => QueryEngine.codepoint_toupper T cp
       | Totitle => QueryEngine.codepoint_totitle T cp
       | Todigit => QueryEngine.codepoint_todigit T cp
       | Islower => Z.b2z (QueryEngine.codepoint_islower T cp)
       | Isupper => Z.b2z (QueryEngine.codepoint_isupper T cp)
       | Istitle => Z.b2z (QueryEngine.codepoint_istitle T cp)
       | Isdigit => Z.b2z (QueryEngine.codepoint_isdigit T cp)
       | Isspace => Z.b2z (QueryEngine.codepoint_isspace T cp)
       | Iscntrl => Z.b2z (QueryEngine.codepoint_iscntrl T cp)
       | Ispunct => Z.b2z (QueryEngine.codepoint_ispunct T cp)
       | Isemoji => Z.b2z (QueryEngine.codepoint_isemoji T cp)
       | Isprint => Z.b2z (QueryEngine.codepoint_isprint T cp)
       | Isalpha => Z.b2z (QueryEngine.codepoint_isalpha T cp)
       | Isalnum => Z.b2z (QueryEngine.codepoint_isalnum T cp)
       | Isvalid => Z.b2z (QueryEngine.codepoint_isvalid cp)
       | Toflags => QueryEngine.codepoint_toflags T cp
       end;
     CODEPOINT_LINEBREAK := QueryEngine.CODEPOINT_LINEBREAK;
     CODEPOINT_CONNECTING := QueryEngine.CODEPOINT_CONNECTING;
     CODEPOINT_FORMATTING := QueryEngine.CODEPOINT_FORMATTING;
     CODEPOINT_COMBINING := QueryEngine.CODEPOINT_COMBINING |}.

Definition sample_engine : Engine :=
  engine_of_tables QueryEngine.sample_tables.

(** ** The effects of the program *)

(** What the process has done so far: the writes to standard output, in
    order, one per call of [puts], [putchar] or [printf], and the calls
    made to the engine, in order. *)
Record world : Type := {
  written : list string;
  calls : list (engine_fn * Z)
}.

Definition start_of_process : world := {| written := []; calls := [] |}.

(** A computation either returns to its caller or ends the process with
    [exit]. *)
Inductive outcome (A : Type) : Type :=
| Returned (a : A) (w : world)
| Exited (status : Z) (w : world).
Arguments Returned {A} a w.
Arguments Exited {A} status w.

Definition M (A : Type) : Type := world -> outcome A.

Definition ret {A} (a : A) : M A := fun w => Returned a w.

Definition bind {A B} (m : M A) (k : A -> M B) : M B :=
  fun w =>
    match m w with
    | Returned a w' => k a w'
    | Exited status w' => Exited status w'
    end.

Notation "x <- m ;; k" := (bind m (fun x => k))
  (at level 61, m at next level, right associativity).
Notation "m ;; k" := (bind m (fun _ => k))
  (at level 61, right associativity).

Definition write (s : string) : M unit :=
  fun w => Returned tt {| written := written w ++ [s]; calls := calls w |}.

Definition exit {A} (status : Z) : M A := fun w => Exited status w.

Definition puts (s : string) : M unit := write (s ++ nl).
Definition putchar (c : ascii) : M unit := write (String c EmptyString).
Definition printf (fmt : string) (arg : printf_arg) : M unit :=
  write (format fmt arg).

(** [e ? "true" : "false"] *)
Definition true_or_false (e : Z) : printf_arg :=
  ArgStr (if e =? 0 then "false" else "true").

Section Program.

Variable E : Engine.

(** A call of an engine function: its value, and a record of the call. *)
Definition engine_call (f : engine_fn) (cp : Z) : M Z :=
  fun w => Returned (engine E f cp)
                    {| written := written w; calls := calls w ++ [(f, cp)] |}.

Definition codepoint_tolower := engine_call Tolower.
Definition codepoint_toupper := engine_call Toupper.
Definition codepoint_totitle := engine_call Totitle.
Definition codepoint_todigit := engine_call Todigit.
Definition codepoint_islower := engine_call Islower.
Definition codepoint_isupper := engine_call Isupper.
Definition codepoint_istitle := engine_call Istitle.
Definition codepoint_isdigit := engine_call Isdigit.
Definition codepoint_isspace := engine_call Isspace.
Definition codepoint_iscntrl := engine_call Iscntrl.
Definition codepoint_ispunct := engine_call Ispunct.
Definition codepoint_isemoji := engine_call Isemoji.
Definition codepoint_isprint := engine_call Isprint.
Definition codepoint_isalpha := engine_call Isalpha.
Definition codepoint_isalnum := engine_call Isalnum.
Definition codepoint_isvalid := engine_call Isvalid.
Definition codepoint_toflags := engine_call Toflags.

(** ** [print_usage_and_quit] *)

Definition usage : string := "usage: unicode [--json] codepoint".

Definition print_usage_and_quit {A} : M A :=
  puts usage ;;
  exit 1.

(** ** [main] *)

(** The body of the loop over the arguments, at index [i], on the two
    locals [codepoint_argument_index] and [output_json]. *)
Definition option_loop_body (argv : list string) (locals : Z * bool) (i : nat)
    : Z * bool :=
  let '(codepoint_argument_index, output_json) := locals in
  let arg := nth i argv EmptyString in
  if char_code (deref arg) =? char_code "-" then
    if strcmp arg "--json" =? 0 then (codepoint_argument_index, true)
    else (codepoint_argument_index, output_json)
  else (Z.of_nat i, output_json).

(** [for (int i = 1; i < argc; i++)] *)
Definition option_loop (argv : list string) : Z * bool :=
  fold_left (option_loop_body argv)
            (seq 1 (List.length argv - 1))
            (-1, false).

(** The advance past an optional [u] or [U] and an optional [+]. *)
Definition skip_u_plus (unicode_codepoint : string) : string :=
  if tolower (char_code (deref unicode_codepoint)) =? char_code "u" then
    let unicode_codepoint := advance unicode_codepoint in
    if char_code (deref unicode_codepoint) =? char_code "+"
    then advance unicode_codepoint
    else unicode_codepoint
  else unicode_codepoint.

(** The [--json] branch. *)
Definition print_json (character : Z) : M unit :=
  putchar "{" ;;
  v <- codepoint_tolower character ;;
  printf (quoted "toLowerCase" ++ ":%d,") (ArgInt v) ;;
  v <- codepoint_toupper character ;;
  printf (quoted "toUpperCase" ++ ":%d,") (ArgInt v) ;;
  v <- codepoint_totitle character ;;
  printf (quoted "toTitleCase" ++ ":%d,") (ArgInt v) ;;
  v <- codepoint_todigit character ;;
  printf (quoted "toDigit" ++ ":%d,") (ArgInt v) ;;
  v <- codepoint_islower character ;;
  printf (quoted "isLowerCase" ++ ":%s,") (true_or_false v) ;;
  v <- codepoint_isupper character ;;
  printf (quoted "isUpperCase" ++ ":%s,") (true_or_false v) ;;
  v <- codepoint_istitle character ;;
  printf (quoted "isTitleCase" ++ ":%s,") (true_or_false v) ;;
  v <- codepoint_isdigit character ;;
  printf (quoted "isDigit" ++ ":%s,") (true_or_false v) ;;
  v <- codepoint_isspace character ;;
  printf (quoted "isSpaceChar" ++ ":%s,") (true_or_false v) ;;
  v <- codepoint_toflags character ;;
  printf (quoted "isLineBreak" ++ ":%s,")
         (true_or_false (Z.land v (CODEPOINT_LINEBREAK E))) ;;
  v <- codepoint_iscntrl character ;;
  printf (quoted "isISOControl" ++ ":%s,") (true_or_false v) ;;
  v <- codepoint_ispunct character ;;
  printf (quoted "isPunctuation" ++ ":%s,") (true_or_false v) ;;
  v <- codepoint_toflags character ;;
  printf (quoted "isConnectingChar" ++ ":%s,")
         (true_or_false (Z.land v (CODEPOINT_CONNECTING E))) ;;
  v <- codepoint_toflags character ;;
  printf (quoted "isFormattingChar" ++ ":%s,")
         (true_or_false (Z.land v (CODEPOINT_FORMATTING E))) ;;
  v <- codepoint_toflags character ;;
  printf (quoted "isCombiningChar" ++ ":%s,")
         (true_or_false (Z.land v (CODEPOINT_COMBINING E))) ;;
  v <- codepoint_isemoji character ;;
  printf (quoted "isEmoji" ++ ":%s,") (true_or_false v) ;;
  v <- codepoint_isprint character ;;
  printf (quoted "isPrintable" ++ ":%s,") (true_or_false v) ;;
  v <- codepoint_isalpha character ;;
  printf (quoted "isAlpha" ++ ":%s,") (true_or_false v) ;;
  v <- codepoint_isalnum character ;;
  printf (quoted "isAlphaNumeric" ++ ":%s,") (true_or_false v) ;;
  v <- codepoint_isvalid character ;;
  printf (quoted "isValidCodePoint" ++ ":%s") (true_or_false v) ;;
  putchar "}".

(** The [else] branch. *)
Definition print_text (character : Z) : M unit :=
  v <- codepoint_tolower character ;;
  printf ("toLowerCase: %d" ++ nl) (ArgInt v) ;;
  v <- codepoint_toupper character ;;
  printf ("toUpperCase: %d" ++ nl) (ArgInt v) ;;
  v <- codepoint_totitle character ;;
  printf ("toTitleCase: %d" ++ nl) (ArgInt v) ;;
  v <- codepoint_todigit character ;;
  printf ("toDigit: %d" ++ nl) (ArgInt v) ;;
  v <- codepoint_islower character ;;
  printf ("isLowerCase: %d" ++ nl) (ArgInt v) ;;
  v <- codepoint_isupper character ;;
  printf ("isUpperCase: %d" ++ nl) (ArgInt v) ;;
  v <- codepoint_istitle character ;;
  printf ("isTitleCase: %d" ++ nl) (ArgInt v) ;;
  v <- codepoint_isdigit character ;;
  printf ("isDigit: %d" ++ nl) (ArgInt v) ;;
  v <- codepoint_isspace character ;;
  printf ("isSpaceChar: %d" ++ nl) (ArgInt v) ;;
  v <- codepoint_iscntrl character ;;
  printf ("isISOControl: %d" ++ nl) (ArgInt v) ;;
  v <- codepoint_ispunct character ;;
  printf ("isPunctuation: %d" ++ nl) (ArgInt v) ;;
  v <- codepoint_isemoji character ;;
  printf ("isEmoji: %d" ++ nl) (ArgInt v) ;;
  v <- codepoint_isprint character ;;
  printf ("isPrintable: %d" ++ nl) (ArgInt v) ;;
  v <- codepoint_isalpha character ;;
  printf ("isAlpha: %d" ++ nl) (ArgInt v) ;;
  v <- codepoint_isalnum character ;;
  printf ("isAlphaNumeric: %d" ++ nl) (ArgInt v) ;;
  v <- codepoint_isvalid character ;;
  printf ("isValidCodePoint: %d" ++ nl) (ArgInt v).

Definition main (argc : Z) (argv : list string) : M Z :=
  (if argc <? 2 then print_usage_and_quit else ret tt) ;;
  let '(codepoint_argument_index, output_json) := option_loop argv in
  (if codepoint_argument_index <? 0 then print_usage_and_quit else ret tt) ;;
  let unicode_codepoint :=
    nth (Z.to_nat codepoint_argument_index) argv EmptyString in
  let unicode_codepoint := skip_u_plus unicode_codepoint in
  let character := QueryEngine.to_codepoint (strtol unicode_codepoint 16) in
  (if output_json then print_json character else print_text character) ;;
  ret 0.

(** ** A run of the program *)

(** What an invocation is observed to do: its exit status, what it wrote
    and the engine calls it made. *)
Record run : Type := {
  exit_status : Z;
  stdout : string;
  engine_calls : list (engine_fn * Z)
}.

Definition observe (o : outcome Z) : run :=
  match o with
  | Returned status w | Exited status w =>
      {| exit_status := status;
         stdout := String.concat EmptyString (written w);
         engine_calls := calls w |}
  end.

(** The program started with the argument vector [argv]. *)
Definition run_program (argv : list string) : run :=
  observe (main (Z.of_nat (List.length argv)) argv start_of_process).

End Program.

End ExampleC.

(* ===================================================================== *)
(** * The vocabulary of the properties *)
(* ===================================================================== *)

Import Libc ExampleC.

(** ** Arguments *)

(** An argument that [main] takes for an option: it begins with a dash. *)
Definition is_option (arg : string) : bool :=
  Ascii.eqb (deref arg) "-".

(** An option other than [--json]. *)
Definition ignored_option (arg : string) : bool :=
  is_option arg && negb (String.eqb arg "--json").

(** [--json] occurs among the arguments. *)
Definition wants_json (args : list string) : bool :=
  existsb (String.eqb "--json") args.

(** The invocation supplies a code point: some argument after the program
    name is not an option. *)
Definition supplies_codepoint (argv : list string) : bool :=
  existsb (fun arg => negb (is_option arg)) (tl argv).

(** The last argument that is not an option, when there is one. *)
Fixpoint codepoint_argument (args : list string) : option string :=
  match args with
  | [] => None
  | arg :: rest =>
      match codepoint_argument rest with
      | Some s => Some s
      | None => if is_option arg then None else Some arg
      end
  end.

(** The loop of [main] over the arguments that remain, from index [i]. *)
Fixpoint scan_from (rest : list string) (i : nat) (locals : Z * bool)
    : Z * bool :=
  match rest with
  | [] => locals
  | arg :: rest' =>
      scan_from rest' (S i)
        (if is_option arg
         then (fst locals, snd locals || String.eqb arg "--json")
         else (Z.of_nat i, snd locals))
  end.

(** ** Numerals *)

Fixpoint all_chars (p : ascii -> bool) (s : string) : bool :=
  match s with
  | EmptyString => true
  | String c s' => p c && all_chars p s'
  end.

Definition in_range (lo hi : ascii) (c : ascii) : bool :=
  (char_code lo <=? char_code c) && (char_code c <=? char_code hi).

Definition is_decimal_digit (c : ascii) : bool := in_range "0" "9" c.

Definition is_hex_digit (c : ascii) : bool :=
  in_range "0" "9" c || in_range "a" "f" c || in_range "A" "F" c.

Definition hex_digit_value (c : ascii) : Z :=
  if in_range "0" "9" c then char_code c - char_code "0"
  else if in_range "a" "f" c then char_code c - char_code "a" + 10
  else char_code c - char_code "A" + 10.

(** The number a string of digits denotes in positional notation. *)
Fixpoint positional (radix : Z) (digit : ascii -> Z) (s : string) : Z :=
  match s with
  | EmptyString => 0
  | String c s' =>
      digit c * radix ^ Z.of_nat (String.length s') + positional radix digit s'
  end.

Definition hex_value : string -> Z := positional 16 hex_digit_value.

Definition decimal_value : string -> Z :=
  positional 10 (fun c => char_code c - char_code "0").

(** A plain numeral: one digit at least, and digits only. *)
Definition decimal_numeral (s : string) : bool :=
  negb (String.eqb s EmptyString) && all_chars is_decimal_digit s.

Definition hex_numeral (s : string) : bool :=
  negb (String.eqb s EmptyString) && all_chars is_hex_digit s.

(** The four spellings of the prefix of the [U+] notation. *)
Definition u_prefixes : list string := ["U+"; "u+"; "U"; "u"].

(** The greatest value of a [codepoint]. *)
Definition CODEPOINT_MAX : Z := 2 ^ QueryEngine.CODEPOINT_BITS - 1.


(** The code point [main] computes from its code point argument. *)
Definition queried_codepoint (arg : string) : Z :=
  QueryEngine.to_codepoint (strtol (skip_u_plus arg) 16).



(** ** Reports *)

(** An attribute as printed: its key and its value. *)
Definition attribute : Type := (string * string)%type.

Section Reports.

Variable E : Engine.
Variable cp : Z.

Definition number (f : engine_fn) : string := print_int (engine E f cp).

Definition truth (v : Z) : string := if v =? 0 then "false" else "true".

Definition flag (mask : Z) : string :=
  truth (Z.land (engine E Toflags cp) mask).

(** The attributes of the [--json] branch, in the order printed. *)
Definition json_attributes : list attribute :=
  [ ("toLowerCase", number Tolower);
    ("toUpperCase", number Toupper);
    ("toTitleCase", number Totitle);
    ("toDigit", number Todigit);
    ("isLowerCase", truth (engine E Islower cp));
    ("isUpperCase", truth (engine E Isupper cp));
    ("isTitleCase", truth (engine E Istitle cp));
    ("isDigit", truth (engine E Isdigit cp));
    ("isSpaceChar", truth (engine E Isspace cp));
    ("isLineBreak", flag (CODEPOINT_LINEBREAK E));
    ("isISOControl", truth (engine E Iscntrl cp));
    ("isPunctuation", truth (engine E Ispunct cp));
    ("isConnectingChar", flag (CODEPOINT_CONNECTING E));
    ("isFormattingChar", flag (CODEPOINT_FORMATTING E));
    ("isCombiningChar", flag (CODEPOINT_COMBINING E));
    ("isEmoji", truth (engine E Isemoji cp));
    ("isPrintable", truth (engine E Isprint cp));
    ("isAlpha", truth (engine E Isalpha cp));
    ("isAlphaNumeric", truth (engine E Isalnum cp));
    ("isValidCodePoint", truth (engine E Isvalid cp)) ].

(** The attributes of the line-per-attribute branch, in the order
    printed. *)
Definition text_attributes : list attribute :=
  [ ("toLowerCase", number Tolower);
    ("toUpperCase", number Toupper);
    ("toTitleCase", number Totitle);
    ("toDigit", number Todigit);
    ("isLowerCase", number Islower);
    ("isUpperCase", number Isupper);
    ("isTitleCase", number Istitle);
    ("isDigit", number Isdigit);
    ("isSpaceChar", number Isspace);
    ("isISOControl", number Iscntrl);
    ("isPunctuation", number Ispunct);
    ("isEmoji", number Isemoji);
    ("isPrintable", number Isprint);
    ("isAlpha", number Isalpha);
    ("isAlphaNumeric", number Isalnum);
    ("isValidCodePoint", number Isvalid) ].

End Reports.

(** One JSON object: the members [key:value] between braces, separated
    by commas, the keys between double quotes. *)
Definition json_member (a : attribute) : string :=
  quoted (fst a) ++ ":" ++ snd a.

Definition json_object (attrs : list attribute) : string :=
  "{" ++ String.concat "," (map json_member attrs) ++ "}".

(** One line per attribute: the key, a colon and a space, the value, a
    line feed. *)
Definition text_line (a : attribute) : string :=
  fst a ++ ": " ++ snd a ++ nl.

Definition text_lines (attrs : list attribute) : string :=
  String.concat EmptyString (map text_line attrs).

(** The engine calls of the two branches, in order. *)
Definition json_calls (cp : Z) : list (engine_fn * Z) :=
  map (fun f => (f, cp))
      [ Tolower; Toupper; Totitle; Todigit; Islower; Isupper; Istitle;
        Isdigit; Isspace; Toflags; Iscntrl; Ispunct; Toflags; Toflags;
        Toflags; Isemoji; Isprint; Isalpha; Isalnum; Isvalid ].

Definition text_calls (cp : Z) : list (engine_fn * Z) :=
  map (fun f => (f, cp))
      [ Tolower; Toupper; Totitle; Todigit; Islower; Isupper; Istitle;
        Isdigit; Isspace; Iscntrl; Ispunct; Isemoji; Isprint; Isalpha;
        Isalnum; Isvalid ].

(** The run that prints the usage message and fails. *)
Definition usage_run : run :=
  {| exit_status := 1; stdout := usage ++ nl; engine_calls := [] |}.

(** The run that reports on the code point [cp], in either format. *)
Definition report_run (E : Engine) (json : bool) (cp : Z) : run :=
  {| exit_status := 0;
     stdout := if json then json_object (json_attributes E cp)
               else text_lines (text_attributes E cp);
     engine_calls := if json then json_calls cp else text_calls cp |}.

(** The keys that only the JSON object has. *)
Definition json_only_keys : list string :=
  [ "isLineBreak"; "isConnectingChar"; "isFormattingChar"; "isCombiningChar" ].

Definition json_only (key : string) : bool :=
  existsb (String.eqb key) json_only_keys.

(** ** Occurrences *)

(** [hay] begins with [needle]. *)
Fixpoint begins_with (needle hay : string) : bool :=
  match needle with
  | EmptyString => true
  | String x needle' =>
      match hay with
      | EmptyString => false
      | String y hay' => Ascii.eqb x y && begins_with needle' hay'
      end
  end.

(** [needle] occurs in [hay] as a run of consecutive characters. *)
Fixpoint occurs (needle hay : string) : bool :=
  begins_with needle hay
  || match hay with
     | EmptyString => false
     | String _ hay' => occurs needle hay'
     end.

Fixpoint char_in (c : ascii) (s : string) : bool :=
  match s with
  | EmptyString => false
  | String x s' => Ascii.eqb c x || char_in c s'
  end.

(** No character of [s] occurs in [needle]. *)
Definition foreign_to (needle s : string) : bool :=
  all_chars (fun c => negb (char_in c needle)) s.

(** The characters of a [%d] conversion. *)
Definition is_int_char (c : ascii) : bool :=
  is_decimal_digit c || Ascii.eqb c "-".

(** The characters that separate a key of a line from the next key. *)
Definition is_line_filler (c : ascii) : bool :=
  is_int_char c || Ascii.eqb c ":" || Ascii.eqb c " " || Ascii.eqb c newline.

(** The number of line feeds of a text. *)
Fixpoint count_newlines (s : string) : nat :=
  match s with
  | EmptyString => 0%nat
  | String c s' =>
      ((if Ascii.eqb c newline then 1 else 0) + count_newlines s')%nat
  end.

(** ** Variants of an argument *)

(** The range of an [int], the type that [%d] prints. *)
Definition INT_MAX : Z := 2147483647.
Definition INT_MIN : Z := - 2147483648.

(** A string with its letters [A-Z] turned to lower case by [tolower]. *)
Fixpoint lowercase (s : string) : string :=
  match s with
  | EmptyString => EmptyString
  | String c s' =>
      String (ascii_of_N (Z.to_N (tolower (char_code c)))) (lowercase s')
  end.

(** The two spellings of the prefix that [strtol] accepts in base 16. *)
Definition hex_prefixes : list string := ["0x"; "0X"].

(** ** Readers of the two formats *)

(** What is left and right of the first [sep] of a string. *)
Fixpoint split_at (sep : ascii) (s : string) : option (string * string) :=
  match s with
  | EmptyString => None
  | String c s' =>
      if Ascii.eqb c sep then Some (EmptyString, s')
      else match split_at sep s' with
           | Some (l, r) => Some (String c l, r)
           | None => None
           end
  end.

(** The fields that [sep] separates; one more than there are [sep]. *)
Fixpoint fields (sep : ascii) (s : string) : list string :=
  match s with
  | EmptyString => [EmptyString]
  | String c s' =>
      if Ascii.eqb c sep then EmptyString :: fields sep s'
      else match fields sep s' with
           | [] => [String c EmptyString]
           | f :: fs => String c f :: fs
           end
  end.

(** The pieces that [sep] ends, when the string ends with [sep] or is
    empty. *)
Fixpoint terminated_by (sep : ascii) (s : string) : option (list string) :=
  match s with
  | EmptyString => Some []
  | String c s' =>
      match terminated_by sep s' with
      | None => None
      | Some pieces =>
          if Ascii.eqb c sep then Some (EmptyString :: pieces)
          else match pieces with
               | [] => None
               | p :: ps => Some (String c p :: ps)
               end
      end
  end.

(** The string without its last character, which is to be [c]. *)
Fixpoint chop_last (c : ascii) (s : string) : option string :=
  match s with
  | EmptyString => None
  | String x s' =>
      match s' with
      | EmptyString => if Ascii.eqb x c then Some EmptyString else None
      | String _ _ =>
          match chop_last c s' with
          | Some t => Some (String x t)
          | None => None
          end
      end
  end.

(** All of a list read by [f], or nothing. *)
Fixpoint read_all {A B : Type} (f : A -> option B) (l : list A)
    : option (list B) :=
  match l with
  | [] => Some []
  | a :: l' =>
      match f a, read_all f l' with
      | Some b, Some bs => Some (b :: bs)
      | _, _ => None
      end
  end.

(** The integer a decimal numeral denotes, read back as [%d] would. *)
Definition scan_int (s : string) : option Z :=
  match NilZero.int_of_string s with
  | Some d => Some (Z.of_int d)
  | None => None
  end.

(** A line [key: integer]. *)
Definition read_line (line : string) : option (string * Z) :=
  match split_at ":" line with
  | Some (key, String sp value) =>
      if Ascii.eqb sp " " then
        match scan_int value with
        | Some z => Some (key, z)
        | None => None
        end
      else None
  | _ => None
  end.

(** A report of lines, each ended by a line feed. *)
Definition read_lines (out : string) : option (list (string * Z)) :=
  match terminated_by newline out with
  | Some lines => read_all read_line lines
  | None => None
  end.

Definition is_letter (c : ascii) : bool :=
  in_range "a" "z" c || in_range "A" "Z" c.

(** A key of letters only, one at least. *)
Definition is_plain_key (key : string) : bool :=
  negb (String.eqb key EmptyString) && all_chars is_letter key.

Definition is_nonzero_digit (c : ascii) : bool := in_range "1" "9" c.

(** A JSON integer: an optional minus, then [0] alone or digits that do
    not begin with [0]. *)
Definition is_json_natural (s : string) : bool :=
  match s with
  | EmptyString => false
  | String c s' =>
      (Ascii.eqb c "0" && String.eqb s' EmptyString)
      || (is_nonzero_digit c && all_chars is_decimal_digit s')
  end.

Definition is_json_integer (s : string) : bool :=
  match s with
  | EmptyString => false
  | String c s' =>
      if Ascii.eqb c "-" then is_json_natural s' else is_json_natural s
  end.

(** The JSON values that the report uses. *)
Definition is_json_literal (value : string) : bool :=
  String.eqb value "true" || String.eqb value "false"
  || is_json_integer value.

(** A member ["key":value] of plain key and literal value. *)
Definition read_member (member : string) : option attribute :=
  match member with
  | EmptyString => None
  | String q rest =>
      if Ascii.eqb q dquote then
        match split_at dquote rest with
        | Some (key, String colon value) =>
            if Ascii.eqb colon ":" && is_plain_key key && is_json_literal value
            then Some (key, value)
            else None
        | _ => None
        end
      else None
  end.

(** A JSON object of such members, without white space. *)
Definition read_object (out : string) : option (list attribute) :=
  match out with
  | EmptyString => None
  | String b rest =>
      if Ascii.eqb b "{" then
        match chop_last "}" rest with
        | Some body => read_all read_member (fields "," body)
        | None => None
        end
      else None
  end.

(** The answers of the engine that the lines show, in order. *)
Definition text_answers (E : Engine) (cp : Z) : list (string * Z) :=
  [ ("toLowerCase", engine E Tolower cp);
    ("toUpperCase", engine E Toupper cp);
    ("toTitleCase", engine E Totitle cp);
    ("toDigit", engine E Todigit cp);
    ("isLowerCase", engine E Islower cp);
    ("isUpperCase", engine E Isupper cp);
    ("isTitleCase", engine E Istitle cp);
    ("isDigit", engine E Isdigit cp);
    ("isSpaceChar", engine E Isspace cp);
    ("isISOControl", engine E Iscntrl cp);
    ("isPunctuation", engine E Ispunct cp);
    ("isEmoji", engine E Isemoji cp);
    ("isPrintable", engine E Isprint cp);
    ("isAlpha", engine E Isalpha cp);
    ("isAlphaNumeric", engine E Isalnum cp);
    ("isValidCodePoint", engine E Isvalid cp) ].

(** The JSON value of an attribute whose line shows the integer [z]: the
    same numeral for the conversions and the digit, whose keys begin with
    [to], and a truth value for the predicates. *)
Definition json_of_answer (a : string * Z) : attribute :=
  (fst a, if begins_with "to" (fst a) then print_int (snd a) else truth (snd a)).

(* ===================================================================== *)
(** * Lemmas on the C library functions *)
(* ===================================================================== *)

Lemma char_code_range (c : ascii) : 0 <= char_code c < 256.
Proof.
  unfold char_code. pose proof (N_ascii_bounded c). lia.
Qed.

Lemma char_code_inj (a b : ascii) : char_code a = char_code b -> a = b.
Proof.
  unfold char_code. intros H. apply N2Z.inj in H.
  rewrite <- (ascii_N_embedding a), <- (ascii_N_embedding b). now rewrite H.
Qed.

Lemma char_code_eqb (a b : ascii) :
  (char_code a =? char_code b) = Ascii.eqb a b.
Proof.
  destruct (Ascii.eqb_spec a b) as [->|Hne].
  - apply Z.eqb_refl.
  - apply Z.eqb_neq. intros H. apply Hne, char_code_inj, H.
Qed.

Lemma strcmp_eqb (a b : string) : (strcmp a b =? 0) = String.eqb a b.
Proof.
  revert b. induction a as [|x a IH]; intros [|y b]; simpl; try reflexivity.
  rewrite char_code_eqb. destruct (Ascii.eqb x y).
  - apply IH.
  - now destruct (char_code x <? char_code y).
Qed.

Lemma is_option_code (arg : string) :
  (char_code (deref arg) =? char_code "-") = is_option arg.
Proof. apply char_code_eqb. Qed.

(** ** [strtol] on a string of hexadecimal digits *)

Lemma hex_digit_in_base (c : ascii) :
  is_hex_digit c = true ->
  digit_in_base 16 c = Some (hex_digit_value c) /\ 0 <= hex_digit_value c < 16.
Proof.
  unfold is_hex_digit, hex_digit_value, in_range, digit_in_base, digit_value.
  change (char_code "0") with 48. change (char_code "9") with 57.
  change (char_code "a") with 97. change (char_code "f") with 102.
  change (char_code "A") with 65. change (char_code "F") with 70.
  intros H.
  destruct (Z.leb_spec 48 (char_code c)), (Z.leb_spec (char_code c) 57),
           (Z.leb_spec 97 (char_code c)), (Z.leb_spec (char_code c) 102),
           (Z.leb_spec 65 (char_code c)), (Z.leb_spec (char_code c) 70),
           (Z.leb_spec (char_code c) 122), (Z.leb_spec (char_code c) 90);
    simpl in *; try discriminate; try lia;
    match goal with
    | |- context [?a <? 16] => destruct (Z.ltb_spec a 16)
    end; split; first [reflexivity | lia].
Qed.

Lemma not_hex_digit_in_base (c : ascii) :
  is_hex_digit c = false -> digit_in_base 16 c = None.
Proof.
  unfold is_hex_digit, in_range, digit_in_base, digit_value.
  change (char_code "0") with 48. change (char_code "9") with 57.
  change (char_code "a") with 97. change (char_code "f") with 102.
  change (char_code "A") with 65. change (char_code "F") with 70.
  intros H.
  destruct (Z.leb_spec 48 (char_code c)), (Z.leb_spec (char_code c) 57),
           (Z.leb_spec 97 (char_code c)), (Z.leb_spec (char_code c) 102),
           (Z.leb_spec 65 (char_code c)), (Z.leb_spec (char_code c) 70),
           (Z.leb_spec (char_code c) 122), (Z.leb_spec (char_code c) 90);
    simpl in *; try discriminate; try lia; try reflexivity;
    match goal with
    | |- context [?a <? 16] => destruct (Z.ltb_spec a 16)
    end; first [reflexivity | lia].
Qed.

Lemma hex_value_bounds (s : string) :
  all_chars is_hex_digit s = true ->
  0 <= hex_value s < 16 ^ Z.of_nat (String.length s).
Proof.
  unfold hex_value.
  induction s as [|c s IH]; simpl all_chars; intros H.
  - simpl. lia.
  - apply andb_prop in H as [Hc Hs]. specialize (IH Hs).
    destruct (hex_digit_in_base c Hc) as [_ Hd].
    cbn [positional String.length].
    rewrite Nat2Z.inj_succ, Z.pow_succ_r by lia. nia.
Qed.

Lemma accumulate_hex (s : string) (acc : Z) :
  all_chars is_hex_digit s = true ->
  accumulate 16 s acc = acc * 16 ^ Z.of_nat (String.length s) + hex_value s.
Proof.
  unfold hex_value.
  revert acc. induction s as [|c s IH]; simpl all_chars; intros acc H.
  - simpl. lia.
  - apply andb_prop in H as [Hc Hs].
    destruct (hex_digit_in_base c Hc) as [Hd _].
    cbn [accumulate positional String.length]. rewrite Hd, (IH _ Hs).
    rewrite Nat2Z.inj_succ, Z.pow_succ_r by lia. ring.
Qed.

Lemma hex_digit_code (c : ascii) :
  is_hex_digit c = true ->
  48 <= char_code c <= 57 \/ 97 <= char_code c <= 102
  \/ 65 <= char_code c <= 70.
Proof.
  unfold is_hex_digit, in_range.
  change (char_code "0") with 48. change (char_code "9") with 57.
  change (char_code "a") with 97. change (char_code "f") with 102.
  change (char_code "A") with 65. change (char_code "F") with 70.
  intros H. apply orb_prop in H as [H|H]; [apply orb_prop in H as [H|H]|];
    apply andb_prop in H as [H1 H2]; lia.
Qed.

Lemma skip_space_hex (s : string) :
  all_chars is_hex_digit s = true -> skip_space s = s.
Proof.
  destruct s as [|c s]; [reflexivity|]. simpl. intros H.
  apply andb_prop in H as [Hc _]. apply hex_digit_code in Hc.
  unfold isspace.
  destruct (Z.eqb_spec (char_code c) 32), (Z.leb_spec 9 (char_code c)),
           (Z.leb_spec (char_code c) 13); simpl; try reflexivity; lia.
Qed.

Lemma take_sign_hex (s : string) :
  all_chars is_hex_digit s = true -> take_sign s = (false, s).
Proof.
  destruct s as [|c s]; [reflexivity|]. simpl. intros H.
  apply andb_prop in H as [Hc _]. apply hex_digit_code in Hc.
  destruct (Z.eqb_spec (char_code c) 45), (Z.eqb_spec (char_code c) 43);
    try reflexivity; lia.
Qed.

Lemma skip_hex_prefix_hex (s : string) :
  all_chars is_hex_digit s = true -> skip_hex_prefix 16 s = s.
Proof.
  unfold skip_hex_prefix. simpl (16 =? 16).
  destruct s as [|z [|x [|d s]]]; try reflexivity. simpl. intros H.
  apply andb_prop in H as [_ H]. apply andb_prop in H as [Hx _].
  apply hex_digit_code in Hx.
  destruct (Z.eqb_spec (char_code x) 120), (Z.eqb_spec (char_code x) 88);
    try lia.
  now rewrite andb_false_r.
Qed.

Lemma strtol_hex (s : string) :
  all_chars is_hex_digit s = true ->
  hex_value s <= LONG_MAX ->
  strtol s 16 = hex_value s.
Proof.
  intros H Hmax. unfold strtol.
  rewrite (skip_space_hex s H), (take_sign_hex s H), (skip_hex_prefix_hex s H).
  rewrite (accumulate_hex s 0 H), Z.mul_0_l, Z.add_0_l.
  pose proof (hex_value_bounds s H) as [Hlo _].
  destruct (Z.gtb_spec (hex_value s) LONG_MAX); [lia|].
  destruct (Z.ltb_spec (hex_value s) LONG_MIN); [unfold LONG_MIN in *; lia|].
  reflexivity.
Qed.


(** ** The prefix of the [U+] notation *)

Lemma skip_u_plus_plain (s : string) :
  all_chars is_hex_digit s = true -> skip_u_plus s = s.
Proof.
  unfold skip_u_plus. destruct s as [|c s]; [reflexivity|].
  simpl. intros H. apply andb_prop in H as [Hc _]. apply hex_digit_code in Hc.
  unfold tolower. change (char_code "u") with 117.
  destruct ((65 <=? char_code c) && (char_code c <=? 90)) eqn:Hup.
  - apply andb_prop in Hup as [H1 H2].
    destruct (Z.eqb_spec (char_code c + 32) 117); [lia|reflexivity].
  - destruct (Z.eqb_spec (char_code c) 117); [lia|reflexivity].
Qed.

Lemma deref_hex_not_plus (s : string) :
  all_chars is_hex_digit s = true ->
  (char_code (deref s) =? char_code "+") = false.
Proof.
  destruct s as [|c s]; [reflexivity|]. simpl. intros H.
  apply andb_prop in H as [Hc _]. apply hex_digit_code in Hc.
  change (char_code "+") with 43. apply Z.eqb_neq. lia.
Qed.

Lemma skip_u_plus_prefixed (p s : string) :
  In p u_prefixes ->
  all_chars is_hex_digit s = true ->
  skip_u_plus (p ++ s) = s.
Proof.
  intros Hp H. pose proof (deref_hex_not_plus s H) as Hplus.
  unfold u_prefixes in Hp. simpl in Hp.
  destruct Hp as [<-|[<-|[<-|[<-|[]]]]]; unfold skip_u_plus; simpl;
    try reflexivity; now rewrite Hplus.
Qed.

Lemma to_codepoint_small (v : Z) :
  0 <= v <= CODEPOINT_MAX -> QueryEngine.to_codepoint v = v.
Proof.
  unfold CODEPOINT_MAX, QueryEngine.to_codepoint. intros H.
  apply Z.mod_small. lia.
Qed.

Lemma queried_codepoint_plain (s : string) :
  all_chars is_hex_digit s = true ->
  hex_value s <= CODEPOINT_MAX ->
  queried_codepoint s = hex_value s.
Proof.
  intros H Hmax. unfold queried_codepoint.
  rewrite (skip_u_plus_plain s H), (strtol_hex s H).
  - apply to_codepoint_small. pose proof (hex_value_bounds s H). lia.
  - unfold CODEPOINT_MAX, QueryEngine.CODEPOINT_BITS, LONG_MAX in *. lia.
Qed.

Lemma queried_codepoint_prefixed (p s : string) :
  In p u_prefixes ->
  all_chars is_hex_digit s = true ->
  hex_value s <= CODEPOINT_MAX ->
  queried_codepoint (p ++ s) = hex_value s.
Proof.
  intros Hp H Hmax. unfold queried_codepoint.
  rewrite (skip_u_plus_prefixed p s Hp H), (strtol_hex s H).
  - apply to_codepoint_small. pose proof (hex_value_bounds s H). lia.
  - unfold CODEPOINT_MAX, QueryEngine.CODEPOINT_BITS, LONG_MAX in *. lia.
Qed.


(* ===================================================================== *)
(** * Lemmas on [main] *)
(* ===================================================================== *)

(** ** The loop over the arguments *)

Lemma option_loop_body_step (argv : list string) (locals : Z * bool) (i : nat) :
  option_loop_body argv locals i =
  let arg := nth i argv EmptyString in
  if is_option arg
  then (fst locals, snd locals || String.eqb arg "--json")
  else (Z.of_nat i, snd locals).
Proof.
  destruct locals as [idx json]. unfold option_loop_body. cbv zeta.
  rewrite is_option_code, strcmp_eqb.
  destruct (is_option _); [|reflexivity].
  destruct (String.eqb _ _); simpl;
    [now rewrite orb_true_r | now rewrite orb_false_r].
Qed.

Lemma fold_option_loop (rest before : list string) (locals : Z * bool) :
  fold_left (option_loop_body (before ++ rest))
            (seq (List.length before) (List.length rest)) locals
  = scan_from rest (List.length before) locals.
Proof.
  revert before locals.
  induction rest as [|arg rest IH]; intros before locals; [reflexivity|].
  cbn [List.length seq fold_left scan_from].
  rewrite option_loop_body_step. cbv zeta. rewrite nth_middle.
  replace (before ++ arg :: rest)%list with ((before ++ [arg]) ++ rest)%list
    by now rewrite <- app_assoc.
  replace (S (List.length before)) with (List.length (before ++ [arg])%list)
    by (rewrite length_app; simpl; lia).
  apply IH.
Qed.

Lemma option_loop_scan (prog : string) (args : list string) :
  option_loop (prog :: args) = scan_from args 1 (-1, false).
Proof.
  unfold option_loop. cbn [List.length].
  replace (S (List.length args) - 1)%nat with (List.length args) by lia.
  apply (fold_option_loop args [prog]).
Qed.

Lemma json_is_option (arg : string) :
  is_option arg = false -> String.eqb "--json" arg = false.
Proof.
  intros H. destruct (String.eqb_spec "--json" arg) as [<-|]; [|reflexivity].
  discriminate H.
Qed.

Lemma scan_from_spec (rest : list string) :
  forall (i : nat) (idx : Z) (json : bool),
    snd (scan_from rest i (idx, json)) = json || wants_json rest
    /\ match codepoint_argument rest with
       | None => fst (scan_from rest i (idx, json)) = idx
       | Some s =>
           exists k : nat,
             fst (scan_from rest i (idx, json)) = Z.of_nat (i + k)
             /\ nth k rest EmptyString = s
       end.
Proof.
  induction rest as [|arg rest IH]; intros i idx json.
  - simpl. now rewrite orb_false_r.
  - cbn [scan_from codepoint_argument wants_json existsb fst snd].
    fold (wants_json rest).
    destruct (is_option arg) eqn:Harg.
    + destruct (IH (S i) idx (json || String.eqb arg "--json")) as [Hj Hi].
      split.
      * rewrite Hj, (String.eqb_sym arg). now rewrite orb_assoc.
      * destruct (codepoint_argument rest) as [s|]; [|exact Hi].
        destruct Hi as (k & Hk & Hs). exists (S k). split; [|exact Hs].
        rewrite Hk. f_equal. lia.
    + destruct (IH (S i) (Z.of_nat i) json) as [Hj Hi]. split.
      * now rewrite Hj, (json_is_option arg Harg).
      * destruct (codepoint_argument rest) as [s|].
        -- destruct Hi as (k & Hk & Hs). exists (S k). split; [|exact Hs].
           rewrite Hk. f_equal. lia.
        -- exists 0%nat. split; [|reflexivity]. rewrite Hi. f_equal. lia.
Qed.

(** ** The two branches *)

Section Branches.

Variable E : Engine.
Variable cp : Z.

Lemma print_json_start :
  print_json E cp start_of_process =
  Returned tt
    {| written :=
         ["{"] ++ map (fun a => json_member a ++ ",")
                      (removelast (json_attributes E cp))
         ++ [json_member (last (json_attributes E cp) (EmptyString, EmptyString));
             "}"];
       calls := json_calls cp |}.
Proof.
  unfold print_json, bind, putchar, printf, write, engine_call, codepoint_isvalid,
    true_or_false.
  cbn -[print_int Z.eqb Z.land json_attributes json_member].
  unfold json_attributes at 2. cbn [last]. unfold json_member at 2, truth.
  cbn [fst snd].
  destruct (engine E Isvalid cp =? 0); reflexivity.
Qed.

Lemma print_text_start :
  print_text E cp start_of_process =
  Returned tt
    {| written := map text_line (text_attributes E cp);
       calls := text_calls cp |}.
Proof. reflexivity. Qed.

End Branches.

(** ** What is written, as one text *)

Lemma string_app_assoc (a b c : string) : (a ++ b) ++ c = a ++ b ++ c.
Proof. induction a as [|x a IH]; simpl; [reflexivity | now rewrite IH]. Qed.

Lemma string_app_nil_r (a : string) : a ++ EmptyString = a.
Proof. induction a as [|x a IH]; simpl; [reflexivity | now rewrite IH]. Qed.

Lemma concat_cons (sep x : string) (xs : list string) :
  xs <> [] -> String.concat sep (x :: xs) = x ++ sep ++ String.concat sep xs.
Proof. destruct xs; [congruence | reflexivity]. Qed.

Lemma concat_members (ms : list string) (d : string) :
  ms <> [] ->
  String.concat EmptyString
    (map (fun m => m ++ ",") (removelast ms) ++ [last ms d; "}"])
  = String.concat "," ms ++ "}".
Proof.
  induction ms as [|m ms IH]; [congruence|]. intros _.
  destruct ms as [|m' ms]; [reflexivity|].
  change (removelast (m :: m' :: ms)) with (m :: removelast (m' :: ms)).
  change (last (m :: m' :: ms) d) with (last (m' :: ms) d).
  cbn [map app].
  rewrite concat_cons
    by (intros Hnil; apply app_eq_nil in Hnil as [_ Hnil]; discriminate).
  rewrite IH by discriminate.
  rewrite (concat_cons "," m (m' :: ms)) by discriminate.
  cbn [append]. now rewrite !string_app_assoc.
Qed.

Lemma json_written (attrs : list attribute) (d : attribute) :
  attrs <> [] ->
  String.concat EmptyString
    (["{"] ++ map (fun a => json_member a ++ ",") (removelast attrs)
     ++ [json_member (last attrs d); "}"])
  = json_object attrs.
Proof.
  intros Hne. unfold json_object.
  assert (Hm : map json_member attrs <> []) by now destruct attrs.
  rewrite <- (concat_members (map json_member attrs) (json_member d) Hm).
  cbn [app].
  rewrite concat_cons
    by (intros Hnil; apply app_eq_nil in Hnil as [_ Hnil]; discriminate).
  cbn [append]. f_equal. f_equal. f_equal.
  - clear. induction attrs as [|a [|b attrs] IH]; try reflexivity.
    change (removelast (a :: b :: attrs)) with (a :: removelast (b :: attrs)).
    cbn [map]. rewrite IH. reflexivity.
  - f_equal. clear. induction attrs as [|a [|b attrs] IH]; try reflexivity.
    exact IH.
Qed.

(** ** The run of [main] *)

Section Runs.

Variable E : Engine.

Lemma run_without_arguments (argv : list string) :
  (List.length argv < 2)%nat -> run_program E argv = usage_run.
Proof.
  intros H. unfold run_program, main, bind.
  destruct (Z.ltb_spec (Z.of_nat (List.length argv)) 2); [reflexivity | lia].
Qed.

Lemma run_report (json : bool) (cp : Z) :
  observe (bind (if json then print_json E cp else print_text E cp)
                (fun _ => ret 0) start_of_process)
  = report_run E json cp.
Proof.
  unfold bind. destruct json.
  - rewrite print_json_start. unfold observe, ret, report_run.
    cbn [written calls]. now rewrite json_written.
  - rewrite print_text_start. reflexivity.
Qed.

(** What [main] does is decided by the last argument that is not an
    option and by the presence of [--json]. *)
Lemma run_program_spec (prog : string) (args : list string) :
  run_program E (prog :: args) =
  match codepoint_argument args with
  | None => usage_run
  | Some s => report_run E (wants_json args) (queried_codepoint s)
  end.
Proof.
  destruct args as [|arg args].
  - now rewrite run_without_arguments by (simpl; lia).
  - remember (arg :: args) as rest eqn:Hrest.
    unfold run_program, main.
    assert (Hargc : (Z.of_nat (List.length (prog :: rest)) <? 2) = false).
    { apply Z.ltb_ge. subst rest. cbn [List.length]. lia. }
    unfold bind at 1. rewrite Hargc. unfold ret at 1.
    rewrite option_loop_scan.
    destruct (scan_from_spec rest 1 (-1) false) as [Hjson Hidx].
    destruct (scan_from rest 1 (-1, false)) as [idx json].
    cbn [fst snd] in Hjson, Hidx. simpl in Hjson. subst json.
    destruct (codepoint_argument rest) as [s|].
    + destruct Hidx as (k & -> & Hs).
      unfold bind at 1.
      destruct (Z.ltb_spec (Z.of_nat (1 + k)) 0) as [Hneg|_]; [lia|].
      unfold ret at 1. rewrite Nat2Z.id. cbn [Nat.add nth]. rewrite Hs.
      fold (queried_codepoint s). apply run_report.
    + subst idx. reflexivity.
Qed.

End Runs.

(** ** The arguments that decide the run *)

Lemma supplies_codepoint_spec (prog : string) (args : list string) :
  supplies_codepoint (prog :: args) =
  match codepoint_argument args with Some _ => true | None => false end.
Proof.
  unfold supplies_codepoint. cbn [tl].
  induction args as [|arg args IH]; [reflexivity|].
  cbn [existsb codepoint_argument]. rewrite IH.
  destruct (codepoint_argument args); [apply orb_true_r|].
  rewrite orb_false_r. now destruct (is_option arg).
Qed.

Lemma wants_json_In (args : list string) :
  wants_json args = true <-> In "--json" args.
Proof.
  unfold wants_json. rewrite existsb_exists. split.
  - intros (x & Hx & Heq). apply String.eqb_eq in Heq. now subst x.
  - intros H. exists "--json". split; [exact H | apply String.eqb_refl].
Qed.

(** Dropping arguments that are options other than [--json] changes
    neither the code point argument nor the format. *)
Lemma codepoint_argument_filter (keep : string -> bool) (args : list string) :
  (forall arg, keep arg = false -> is_option arg = true) ->
  codepoint_argument (filter keep args) = codepoint_argument args.
Proof.
  intros Hkeep. induction args as [|arg args IH]; [reflexivity|].
  cbn [filter codepoint_argument]. destruct (keep arg) eqn:Hk.
  - cbn [codepoint_argument]. now rewrite IH.
  - rewrite IH, (Hkeep arg Hk). now destruct (codepoint_argument args).
Qed.

Lemma wants_json_filter (keep : string -> bool) (args : list string) :
  keep "--json" = true ->
  wants_json (filter keep args) = wants_json args.
Proof.
  intros Hkeep. unfold wants_json.
  induction args as [|arg args IH]; [reflexivity|].
  cbn [filter existsb]. destruct (keep arg) eqn:Hk.
  - cbn [existsb]. now rewrite IH.
  - rewrite IH. destruct (String.eqb_spec "--json" arg) as [<-|]; [|reflexivity].
    congruence.
Qed.

Lemma codepoint_argument_last (before after : list string) (arg : string) :
  is_option arg = false ->
  forallb is_option after = true ->
  codepoint_argument (before ++ arg :: after) = Some arg.
Proof.
  intros Harg Hafter.
  assert (Hnone : codepoint_argument after = None).
  { induction after as [|x after IH]; [reflexivity|].
    cbn [forallb] in Hafter. apply andb_prop in Hafter as [Hx Hafter].
    cbn [codepoint_argument]. now rewrite (IH Hafter), Hx. }
  induction before as [|x before IH].
  - cbn [app codepoint_argument]. now rewrite Hnone, Harg.
  - cbn [app codepoint_argument]. now rewrite IH.
Qed.

Lemma wants_json_app (xs ys : list string) :
  wants_json (xs ++ ys) = wants_json xs || wants_json ys.
Proof. apply existsb_app. Qed.

(** ** Occurrences of a key in what is printed *)

Lemma char_in_false_neq (c x : ascii) (s : string) :
  char_in c (String x s) = false -> x <> c /\ char_in c s = false.
Proof.
  cbn [char_in]. intros H. apply orb_false_elim in H as [Hx Hs].
  split; [|exact Hs]. intros ->. now rewrite Ascii.eqb_refl in Hx.
Qed.

Lemma prefix_before_foreign (needle a b : string) (c : ascii) :
  char_in c needle = false ->
  begins_with needle (a ++ String c b) = begins_with needle a.
Proof.
  revert a. induction needle as [|x needle IH]; intros a H; [reflexivity|].
  apply char_in_false_neq in H as [Hx Hn].
  destruct a as [|y a]; cbn [append begins_with].
  - destruct (Ascii.eqb_spec x c); [contradiction | reflexivity].
  - now rewrite (IH a Hn).
Qed.

Lemma occurs_around_foreign (needle a b : string) (c : ascii) :
  char_in c needle = false ->
  occurs needle (a ++ String c b) = occurs needle a || occurs needle b.
Proof.
  intros H. induction a as [|y a IH].
  - pose proof (prefix_before_foreign needle EmptyString b c H) as Hp.
    cbn [append occurs] in *. rewrite Hp. now rewrite orb_false_r.
  - pose proof (prefix_before_foreign needle (String y a) b c H) as Hp.
    cbn [append occurs] in *. rewrite IH, Hp. now rewrite orb_assoc.
Qed.

Lemma occurs_empty (needle : string) :
  needle <> EmptyString -> occurs needle EmptyString = false.
Proof. destruct needle; [congruence | reflexivity]. Qed.

Lemma occurs_after_foreign (needle blk b : string) :
  needle <> EmptyString ->
  foreign_to needle blk = true ->
  occurs needle (blk ++ b) = occurs needle b.
Proof.
  intros Hne. unfold foreign_to.
  induction blk as [|c blk IH]; cbn [all_chars]; intros H; [reflexivity|].
  apply andb_prop in H as [Hc Hblk]. apply negb_true_iff in Hc.
  change (String c blk ++ b) with (EmptyString ++ String c (blk ++ b)).
  rewrite (occurs_around_foreign needle EmptyString _ c Hc).
  now rewrite (occurs_empty needle Hne), IH.
Qed.

Lemma foreign_filler (needle s : string) (p : ascii -> bool) :
  all_chars (fun c => negb (p c)) needle = true ->
  all_chars p s = true ->
  foreign_to needle s = true.
Proof.
  intros Hneedle. unfold foreign_to.
  induction s as [|c s IH]; cbn [all_chars]; intros H; [reflexivity|].
  apply andb_prop in H as [Hc Hs]. rewrite (IH Hs), andb_true_r.
  apply negb_true_iff. clear IH Hs.
  induction needle as [|x needle IH]; [reflexivity|].
  cbn [all_chars] in Hneedle. apply andb_prop in Hneedle as [Hx Hn].
  cbn [char_in]. rewrite (IH Hn), orb_false_r.
  destruct (Ascii.eqb_spec c x) as [->|]; [|reflexivity].
  now rewrite Hc in Hx.
Qed.

Lemma all_chars_weaken (p q : ascii -> bool) (s : string) :
  (forall c, p c = true -> q c = true) ->
  all_chars p s = true -> all_chars q s = true.
Proof.
  intros Hpq. induction s as [|c s IH]; cbn [all_chars]; [reflexivity|].
  intros H. apply andb_prop in H as [Hc Hs]. now rewrite (Hpq c Hc), IH.
Qed.

Lemma all_chars_app (p : ascii -> bool) (a b : string) :
  all_chars p (a ++ b) = all_chars p a && all_chars p b.
Proof.
  induction a as [|c a IH]; [reflexivity|].
  cbn [append all_chars]. now rewrite IH, andb_assoc.
Qed.

(** ** The characters of a [%d] conversion *)

Lemma string_of_uint_chars (d : Decimal.uint) :
  all_chars is_int_char (NilEmpty.string_of_uint d) = true.
Proof. induction d; cbn [NilEmpty.string_of_uint all_chars]; auto. Qed.

Lemma print_int_chars (z : Z) : all_chars is_int_char (print_int z) = true.
Proof.
  unfold print_int, NilZero.string_of_int, NilZero.string_of_uint.
  destruct (Z.to_int z) as [d|d]; destruct d; try reflexivity;
    cbn [all_chars]; rewrite ?andb_true_l;
    match goal with
    | |- all_chars _ (NilEmpty.string_of_uint ?u) = true =>
        apply (string_of_uint_chars u)
    end.
Qed.

(** ** Lines *)

Lemma text_lines_cons (a : attribute) (attrs : list attribute) :
  text_lines (a :: attrs) = text_line a ++ text_lines attrs.
Proof.
  unfold text_lines. cbn [map]. destruct attrs as [|b attrs].
  - cbn [map String.concat]. now rewrite string_app_nil_r.
  - reflexivity.
Qed.

Lemma occurs_text_lines (needle : string) (attrs : list attribute) :
  needle <> EmptyString ->
  all_chars (fun c => negb (is_line_filler c)) needle = true ->
  Forall (fun a => all_chars is_int_char (snd a) = true) attrs ->
  occurs needle (text_lines attrs)
  = existsb (fun a => occurs needle (fst a)) attrs.
Proof.
  intros Hne Hneedle Hvals.
  induction Hvals as [|[key value] attrs Hv _ IH].
  - apply (occurs_empty needle Hne).
  - rewrite text_lines_cons. cbn [existsb fst]. rewrite <- IH.
    unfold text_line. cbn [fst snd] in *.
    assert (Hint : forall c, is_int_char c = true -> is_line_filler c = true).
    { intros c Hc. unfold is_line_filler. now rewrite Hc. }
    assert (Hcolon : char_in ":" needle = false).
    { pose proof (foreign_filler needle ":" is_line_filler Hneedle eq_refl) as Hf.
      cbn [foreign_to all_chars] in Hf. rewrite andb_true_r in Hf.
      now apply negb_true_iff in Hf. }
    assert (Hrest : foreign_to needle (String " " (value ++ nl)) = true).
    { apply (foreign_filler needle _ is_line_filler Hneedle).
      cbn [all_chars]. rewrite all_chars_app.
      now rewrite (all_chars_weaken is_int_char is_line_filler value Hint Hv). }
    rewrite string_app_assoc. cbn [append].
    rewrite (occurs_around_foreign needle key _ ":" Hcolon).
    change (String " " ((value ++ nl) ++ text_lines attrs))
      with (String " " (value ++ nl) ++ text_lines attrs).
    now rewrite (occurs_after_foreign needle _ _ Hne Hrest).
Qed.

Lemma text_values_are_numbers (E : Engine) (cp : Z) :
  Forall (fun a => all_chars is_int_char (snd a) = true) (text_attributes E cp).
Proof.
  unfold text_attributes, number. repeat constructor; apply print_int_chars.
Qed.

Lemma count_newlines_app (a b : string) :
  count_newlines (a ++ b) = (count_newlines a + count_newlines b)%nat.
Proof.
  induction a as [|c a IH]; [reflexivity|].
  cbn [append count_newlines]. rewrite IH. lia.
Qed.

Lemma count_newlines_number (s : string) :
  all_chars is_int_char s = true -> count_newlines s = 0%nat.
Proof.
  induction s as [|c s IH]; cbn [all_chars count_newlines]; [reflexivity|].
  intros H. apply andb_prop in H as [Hc Hs]. rewrite (IH Hs).
  destruct (Ascii.eqb_spec c newline) as [->|]; [discriminate Hc | reflexivity].
Qed.

Lemma count_newlines_text_lines (attrs : list attribute) :
  Forall (fun a => count_newlines (fst a) = 0%nat
                   /\ all_chars is_int_char (snd a) = true) attrs ->
  count_newlines (text_lines attrs) = List.length attrs.
Proof.
  induction 1 as [|[key value] attrs [Hk Hv] _ IH]; [reflexivity|].
  rewrite text_lines_cons. unfold text_line. cbn [fst snd List.length] in *.
  rewrite !count_newlines_app, IH, Hk, (count_newlines_number value Hv).
  reflexivity.
Qed.

(* ===================================================================== *)
(** * Lemmas on the query engine *)
(* ===================================================================== *)

Module QueryEngineFacts.
Import QueryEngine.

(** The search returns its candidate or a range of the table that starts
    at or before the code point. *)
Lemma search_sound (T : list CodepointRange) (cp : Z) (lo hi : nat)
    (best : option CodepointRange) (r : CodepointRange) :
  search T cp lo hi best = Some r ->
  best = Some r \/ (In r T /\ range_start r <= cp).
Proof.
  funelim (search T cp lo hi best); intros Hr.
  - now left.
  - now left.
  - match goal with
    | IH : forall r', _ = Some r' -> Some ?c = Some r' \/ _,
      Hnth : nth_error _ _ = Some ?c |- _ =>
        destruct (IH _ Hr) as [Hbest|Hin];
        [ injection Hbest as <-; right; split;
          [exact (nth_error_In _ _ Hnth) | assumption]
        | now right ]
    end.
  - match goal with
    | IH : forall r', _ = Some r' -> _ |- _ => exact (IH _ Hr)
    end.
Qed.

Lemma classify_sound (T : Tables) (cp : Z) (r : CodepointRange) :
  classify T cp = Some r ->
  In r (ranges T) /\ range_start r <= cp <= range_end r.
Proof.
  unfold classify.
  destruct ((0 <=? cp) && (cp <=? MAX_CODEPOINT)); [|discriminate].
  destruct (search (ranges T) cp 0 (List.length (ranges T)) None) as [r0|] eqn:Hs;
    [|discriminate].
  destruct (Z.leb_spec cp (range_end r0)); [|discriminate].
  intros [= <-]. apply search_sound in Hs as [Hbest|[Hin Hstart]].
  - discriminate.
  - repeat split; assumption.
Qed.

Lemma lookup_exception_listed (T : Tables) (cp : Z) (e : ExceptionEntry) :
  lookup_exception T cp = Some e -> listed_exception T cp = true.
Proof.
  unfold lookup_exception, listed_exception. intros H.
  apply find_some in H as [Hin Heq]. apply existsb_exists. now exists e.
Qed.

Lemma covered_uniformly_mapped (d : direction) (T : Tables) (cp : Z)
    (r : CodepointRange) :
  classify T cp = Some r ->
  exceptionFlag r = false ->
  cased_for d (range_category r) = true ->
  uniformly_mapped d T cp = true.
Proof.
  intros Hc Hflag Hcased. apply classify_sound in Hc as [Hin [Hlo Hhi]].
  apply existsb_exists. exists r. split; [exact Hin|].
  rewrite Hflag, Hcased.
  apply Z.leb_le in Hlo. apply Z.leb_le in Hhi. now rewrite Hlo, Hhi.
Qed.

(** Without a defined mapping in the direction, the conversion is the
    identity. *)
Lemma case_map_identity (d : direction) (T : Tables) (cp : Z) :
  has_case_mapping d T cp = false -> case_map d T cp = cp.
Proof.
  unfold has_case_mapping. intros H. apply orb_false_elim in H as [Hexc Huni].
  unfold case_map. destruct (classify T cp) as [r|] eqn:Hc; [|reflexivity].
  destruct (exceptionFlag r) eqn:Hflag.
  - destruct (lookup_exception T cp) as [e|] eqn:He; [|reflexivity].
    apply lookup_exception_listed in He. congruence.
  - destruct (cased_for d (range_category r)) eqn:Hcased; [|reflexivity].
    rewrite (covered_uniformly_mapped d T cp r Hc Hflag Hcased) in Huni.
    discriminate.
Qed.

End QueryEngineFacts.

(* ===================================================================== *)
(** * The front end: how the code point is read *)
(* ===================================================================== *)

Lemma decimal_digit_is_hex (s : string) :
  all_chars is_decimal_digit s = true -> all_chars is_hex_digit s = true.
Proof.
  apply all_chars_weaken. intros c Hc. unfold is_hex_digit.
  unfold is_decimal_digit in Hc. now rewrite Hc.
Qed.

Lemma hex_numeral_digits (s : string) :
  hex_numeral s = true -> all_chars is_hex_digit s = true.
Proof. unfold hex_numeral. intros H. now apply andb_prop in H as [_ H]. Qed.

(** C1, as the code has it. A plain numeral is always read in base 16,
    never in base 10: when the code point argument is a plain numeral of
    hexadecimal digits, digits [0-9] only included, or such a numeral
    after [U+], [u+], [U] or [u], and its hexadecimal value fits a
    [codepoint], the program reports on the code point of that
    hexadecimal value. *)
Theorem numeral_is_read_in_base_16 (E : Engine) (prog : string)
    (args : list string) (p s : string) :
  In p (EmptyString :: u_prefixes) ->
  hex_numeral s = true ->
  hex_value s <= CODEPOINT_MAX ->
  codepoint_argument args = Some (p ++ s) ->
  run_program E (prog :: args) = report_run E (wants_json args) (hex_value s).
Proof.
  intros Hp Hs Hmax Harg. apply hex_numeral_digits in Hs.
  rewrite run_program_spec, Harg. f_equal.
  destruct Hp as [<-|Hp].
  - now apply queried_codepoint_plain.
  - now apply queried_codepoint_prefixed.
Qed.

Lemma numeral_is_read_in_base_16_witness :
  run_program sample_engine ["unicode"; "65"]
  = report_run sample_engine false 101.
Proof.
  exact (numeral_is_read_in_base_16 sample_engine "unicode" ["65"]
           EmptyString "65" (or_introl eq_refl) eq_refl
           ltac:(vm_compute; discriminate) eq_refl).
Defined.

(** C1, as stated, fails: the decimal numeral 65 is not read as the
    decimal value 65; the program reports on 0x65 = 101. *)
Lemma decimal_numeral_not_read_in_base_10 :
  decimal_numeral "65" = true
  /\ decimal_value "65" = 65
  /\ queried_codepoint "65" = 101
  /\ run_program sample_engine ["unicode"; "65"]
     <> report_run sample_engine false (decimal_value "65").
Proof.
  split; [reflexivity|]. split; [reflexivity|]. split; [reflexivity|].
  intros H. apply (f_equal engine_calls) in H. vm_compute in H.
  discriminate H.
Qed.

(** C4, as the code has it. When the code point argument is [U] or [u],
    optionally followed
    by [+], and then hexadecimal digits whose value fits a [codepoint],
    the program reports on the code point equal to the hexadecimal value
    of those digits. *)
Theorem u_plus_numeral_is_hexadecimal (E : Engine) (prog : string)
    (args : list string) (p s : string) :
  In p u_prefixes ->
  all_chars is_hex_digit s = true ->
  hex_value s <= CODEPOINT_MAX ->
  codepoint_argument args = Some (p ++ s) ->
  run_program E (prog :: args) = report_run E (wants_json args) (hex_value s)
  /\ forall call, In call (engine_calls (run_program E (prog :: args))) ->
                  snd call = hex_value s.
Proof.
  intros Hp Hs Hmax Harg.
  assert (Hrun : run_program E (prog :: args)
                 = report_run E (wants_json args) (hex_value s)).
  { rewrite run_program_spec, Harg. f_equal.
    now apply queried_codepoint_prefixed. }
  split; [exact Hrun|]. rewrite Hrun. intros call Hin.
  unfold report_run, json_calls, text_calls in Hin. cbn [engine_calls] in Hin.
  destruct (wants_json args); apply in_map_iff in Hin as (f & <- & _);
    reflexivity.
Qed.

Lemma u_plus_numeral_is_hexadecimal_witness :
  run_program sample_engine ["unicode"; "U+0041"]
  = report_run sample_engine false 65
  /\ run_program sample_engine ["unicode"; "u+41"]
     = report_run sample_engine false 65
  /\ run_program sample_engine ["unicode"; "U41"]
     = report_run sample_engine false 65.
Proof.
  split; [|split].
  - exact (proj1 (u_plus_numeral_is_hexadecimal sample_engine "unicode"
             ["U+0041"] "U+" "0041" (or_introl eq_refl) eq_refl
             ltac:(vm_compute; discriminate) eq_refl)).
  - exact (proj1 (u_plus_numeral_is_hexadecimal sample_engine "unicode"
             ["u+41"] "u+" "41" (or_intror (or_introl eq_refl)) eq_refl
             ltac:(vm_compute; discriminate) eq_refl)).
  - exact (proj1 (u_plus_numeral_is_hexadecimal sample_engine "unicode"
             ["U41"] "U" "41" (or_intror (or_intror (or_introl eq_refl)))
             eq_refl ltac:(vm_compute; discriminate) eq_refl)).
Defined.

(** C4, as stated, fails beyond 32 bits: after [U+], the digits
    [100000041] have the hexadecimal value 0x100000041, which no
    [codepoint] holds; the program reports on 0x41 = 65. *)
Lemma u_plus_numeral_beyond_32_bits :
  all_chars is_hex_digit "100000041" = true
  /\ hex_value "100000041" = 4294967361
  /\ queried_codepoint "U+100000041" = 65
  /\ run_program sample_engine ["unicode"; "U+100000041"]
     = report_run sample_engine false 65
  /\ run_program sample_engine ["unicode"; "U+100000041"]
     <> report_run sample_engine false (hex_value "100000041").
Proof.
  split; [reflexivity|]. split; [reflexivity|]. split; [reflexivity|].
  split; [reflexivity|].
  intros H. apply (f_equal engine_calls) in H. vm_compute in H.
  discriminate H.
Qed.




(* ===================================================================== *)
(** * The front end: arguments, exit status and format *)
(* ===================================================================== *)

(** C3. Without a code point argument (no argument at all, or options
    only) the program prints the usage message and exits with the
    non-zero status 1, having called nothing of the engine; with a code
    point argument it exits with status 0. *)
Theorem exit_status_by_codepoint_argument (E : Engine) (argv : list string) :
  if supplies_codepoint argv
  then exit_status (run_program E argv) = 0
  else run_program E argv = usage_run
       /\ exit_status (run_program E argv) <> 0
       /\ stdout (run_program E argv) = usage ++ nl.
Proof.
  destruct argv as [|prog args].
  - cbn [supplies_codepoint tl existsb].
    rewrite run_without_arguments by (simpl; lia).
    repeat split. discriminate.
  - rewrite supplies_codepoint_spec, run_program_spec.
    destruct (codepoint_argument args) as [s|]; [reflexivity|].
    repeat split. discriminate.
Qed.

(** C5. With a code point argument, the program writes one JSON object
    when [--json] is among the arguments, wherever it stands, and
    otherwise one line per attribute: sixteen attributes, sixteen line
    feeds; and it writes the JSON object in no other case. *)
Theorem json_iff_option_given (E : Engine) (prog : string)
    (args : list string) (s : string) :
  codepoint_argument args = Some s ->
  let cp := queried_codepoint s in
  let out := stdout (run_program E (prog :: args)) in
  (In "--json" args -> out = json_object (json_attributes E cp))
  /\ (~ In "--json" args ->
      out = text_lines (text_attributes E cp)
      /\ count_newlines out = List.length (text_attributes E cp))
  /\ (out = json_object (json_attributes E cp) <-> In "--json" args).
Proof.
  intros Harg cp out. subst out. rewrite run_program_spec, Harg. fold cp.
  unfold report_run. cbn [stdout].
  assert (Hlines : count_newlines (text_lines (text_attributes E cp))
                   = List.length (text_attributes E cp)).
  { apply count_newlines_text_lines. unfold text_attributes, number.
    repeat constructor; apply print_int_chars. }
  assert (Hdiff : text_lines (text_attributes E cp)
                  <> json_object (json_attributes E cp)).
  { intros H. apply (f_equal deref) in H. discriminate H. }
  destruct (wants_json args) eqn:Hjson.
  - apply wants_json_In in Hjson. split; [reflexivity|].
    split; [intros Hnot; now destruct Hnot|]. now split.
  - assert (Hnot : ~ In "--json" args).
    { intros Hin. apply wants_json_In in Hin. congruence. }
    split; [intros Hin; now destruct Hnot|].
    split; [intros _; now split|].
    split; [intros H; now apply Hdiff in H | intros Hin; now destruct Hnot].
Qed.

Lemma json_iff_option_given_witness :
  let cp := queried_codepoint "U+0041" in
  let out := stdout (run_program sample_engine ["unicode"; "U+0041"; "--json"]) in
  (In "--json" ["U+0041"; "--json"]
   -> out = json_object (json_attributes sample_engine cp))
  /\ (~ In "--json" ["U+0041"; "--json"] ->
      out = text_lines (text_attributes sample_engine cp)
      /\ count_newlines out = List.length (text_attributes sample_engine cp))
  /\ (out = json_object (json_attributes sample_engine cp)
      <-> In "--json" ["U+0041"; "--json"]).
Proof.
  exact (json_iff_option_given sample_engine "unicode" ["U+0041"; "--json"]
           "U+0041" eq_refl).
Defined.

(** C8. An argument that begins with a dash and is not [--json] is
    ignored: the program runs as it does on the command line without
    such arguments, so none of them is taken for the code point, none
    turns the JSON format on, and none makes the run fail. *)
Theorem other_options_are_ignored (E : Engine) (prog : string)
    (args : list string) :
  run_program E (prog :: args)
  = run_program E (prog :: filter (fun arg => negb (ignored_option arg)) args).
Proof.
  rewrite !run_program_spec.
  rewrite codepoint_argument_filter, wants_json_filter; [reflexivity| |].
  - reflexivity.
  - intros arg H. apply negb_false_iff in H. unfold ignored_option in H.
    now apply andb_prop in H as [H _].
Qed.

(** C9. Of several arguments that are not options, the last one is the
    code point: the program reports on it, as it does on the command
    line without the earlier ones. *)
Theorem last_codepoint_argument_wins (E : Engine) (prog : string)
    (before after : list string) (arg : string) :
  is_option arg = false ->
  forallb is_option after = true ->
  run_program E (prog :: before ++ arg :: after)
  = report_run E (wants_json (before ++ arg :: after)) (queried_codepoint arg)
  /\ run_program E (prog :: before ++ arg :: after)
     = run_program E (prog :: filter is_option before ++ arg :: after).
Proof.
  intros Harg Hafter.
  rewrite !run_program_spec, !codepoint_argument_last by assumption.
  split; [reflexivity|]. f_equal.
  rewrite !wants_json_app. f_equal.
  apply eq_sym, wants_json_filter. reflexivity.
Qed.

Lemma last_codepoint_argument_wins_witness :
  run_program sample_engine ("unicode" :: ["41"; "--json"; "42"] ++ "61" :: ["-v"])
  = report_run sample_engine true 97
  /\ run_program sample_engine ("unicode" :: ["41"; "--json"; "42"] ++ "61" :: ["-v"])
     = run_program sample_engine ["unicode"; "--json"; "61"; "-v"].
Proof.
  exact (last_codepoint_argument_wins sample_engine "unicode"
           ["41"; "--json"; "42"] ["-v"] "61" eq_refl eq_refl).
Defined.

(** C10. The JSON object has twenty attributes and the lines have
    sixteen. The four that only the JSON object has are [isLineBreak],
    [isConnectingChar], [isFormattingChar] and [isCombiningChar], each a
    mask of the value of [codepoint_toflags]; the lines never contain
    their keys, and the run that prints lines never calls
    [codepoint_toflags]. The other sixteen keys are those of the lines,
    in the same order. *)
Theorem json_only_attributes (E : Engine) (prog : string)
    (args : list string) (s : string) :
  codepoint_argument args = Some s ->
  let cp := queried_codepoint s in
  let r := run_program E (prog :: args) in
  (wants_json args = true -> stdout r = json_object (json_attributes E cp))
  /\ (wants_json args = false ->
      stdout r = text_lines (text_attributes E cp)
      /\ (forall key, In key json_only_keys -> occurs key (stdout r) = false)
      /\ (forall c, ~ In (Toflags, c) (engine_calls r)))
  /\ filter (fun a => json_only (fst a)) (json_attributes E cp)
     = [ ("isLineBreak", flag E cp (CODEPOINT_LINEBREAK E));
         ("isConnectingChar", flag E cp (CODEPOINT_CONNECTING E));
         ("isFormattingChar", flag E cp (CODEPOINT_FORMATTING E));
         ("isCombiningChar", flag E cp (CODEPOINT_COMBINING E)) ]
  /\ map fst (filter (fun a => negb (json_only (fst a))) (json_attributes E cp))
     = map fst (text_attributes E cp)
  /\ List.length (json_attributes E cp) = 20%nat
  /\ List.length (text_attributes E cp) = 16%nat.
Proof.
  intros Harg cp r. subst r. rewrite run_program_spec, Harg. fold cp.
  unfold report_run. cbn [stdout engine_calls].
  split; [now intros ->|].
  split; [|repeat (split; [reflexivity|]); reflexivity].
  intros ->. split; [reflexivity|]. split.
  - intros key Hkey.
    rewrite occurs_text_lines; try apply text_values_are_numbers;
      simpl in Hkey; destruct Hkey as [<-|[<-|[<-|[<-|[]]]]];
      first [reflexivity | discriminate].
  - intros c Hin. unfold text_calls in Hin.
    apply in_map_iff in Hin as (f & Hf & Hin). injection Hf as -> _.
    simpl in Hin. intuition discriminate.
Qed.

Lemma json_only_attributes_witness :
  let cp := queried_codepoint "1F600" in
  let r := run_program sample_engine ["unicode"; "1F600"] in
  (wants_json ["1F600"] = true
   -> stdout r = json_object (json_attributes sample_engine cp))
  /\ (wants_json ["1F600"] = false ->
      stdout r = text_lines (text_attributes sample_engine cp)
      /\ (forall key, In key json_only_keys -> occurs key (stdout r) = false)
      /\ (forall c, ~ In (Toflags, c) (engine_calls r)))
  /\ filter (fun a => json_only (fst a)) (json_attributes sample_engine cp)
     = [ ("isLineBreak", flag sample_engine cp (CODEPOINT_LINEBREAK sample_engine));
         ("isConnectingChar", flag sample_engine cp (CODEPOINT_CONNECTING sample_engine));
         ("isFormattingChar", flag sample_engine cp (CODEPOINT_FORMATTING sample_engine));
         ("isCombiningChar", flag sample_engine cp (CODEPOINT_COMBINING sample_engine)) ]
  /\ map fst (filter (fun a => negb (json_only (fst a)))
                     (json_attributes sample_engine cp))
     = map fst (text_attributes sample_engine cp)
  /\ List.length (json_attributes sample_engine cp) = 20%nat
  /\ List.length (text_attributes sample_engine cp) = 16%nat.
Proof.
  exact (json_only_attributes sample_engine "unicode" ["1F600"] "1F600" eq_refl).
Defined.

(* ===================================================================== *)
(** * The query engine *)
(* ===================================================================== *)

(** C6. [codepoint_isvalid] is true exactly on the values from 0 to
    0x10FFFF (1114111) outside the surrogate range 0xD800 .. 0xDFFF
    (55296 .. 57343); so it is false on every surrogate and on every
    value above 0x10FFFF. *)
Theorem isvalid_iff_scalar_value (cp : Z) :
  (QueryEngine.codepoint_isvalid cp = true
   <-> 0 <= cp <= 1114111 /\ ~ (55296 <= cp <= 57343))
  /\ (55296 <= cp <= 57343 -> QueryEngine.codepoint_isvalid cp = false)
  /\ (cp > 1114111 -> QueryEngine.codepoint_isvalid cp = false).
Proof.
  unfold QueryEngine.codepoint_isvalid, QueryEngine.MAX_CODEPOINT,
    QueryEngine.SURROGATE_FIRST, QueryEngine.SURROGATE_LAST.
  destruct (Z.leb_spec 0 cp), (Z.leb_spec cp 1114111),
           (Z.leb_spec 55296 cp), (Z.leb_spec cp 57343); simpl;
    (split; [split | split]); intros Hx;
    first [reflexivity | discriminate Hx | lia].
Qed.

(** C7. The three case conversions are total functions to a code point,
    with no failure to signal, and each returns its argument on every
    code point without a defined mapping in its direction: one that the
    Exception Table does not list and that no range with a uniform delta
    and a cased category of the direction covers. *)
Theorem case_mapping_identity (T : QueryEngine.Tables) (cp : Z) :
  (QueryEngine.has_case_mapping QueryEngine.Lower T cp = false ->
   QueryEngine.codepoint_tolower T cp = cp)
  /\ (QueryEngine.has_case_mapping QueryEngine.Upper T cp = false ->
      QueryEngine.codepoint_toupper T cp = cp)
  /\ (QueryEngine.has_case_mapping QueryEngine.Title T cp = false ->
      QueryEngine.codepoint_totitle T cp = cp).
Proof.
  repeat split; apply QueryEngineFacts.case_map_identity.
Qed.

Lemma case_mapping_identity_witness :
  QueryEngine.codepoint_tolower QueryEngine.sample_tables 55 = 55
  /\ QueryEngine.codepoint_toupper QueryEngine.sample_tables 65 = 65
  /\ QueryEngine.codepoint_totitle QueryEngine.sample_tables 128512 = 128512.
Proof.
  split; [|split].
  - exact (proj1 (case_mapping_identity QueryEngine.sample_tables 55) eq_refl).
  - exact (proj1 (proj2 (case_mapping_identity QueryEngine.sample_tables 65))
             eq_refl).
  - exact (proj2 (proj2 (case_mapping_identity QueryEngine.sample_tables 128512))
             eq_refl).
Defined.

(* ===================================================================== *)
(** * Further properties of [main]: the arguments *)
(* ===================================================================== *)

Lemma codepoint_argument_In (args : list string) (s : string) :
  codepoint_argument args = Some s -> In s args /\ is_option s = false.
Proof.
  induction args as [|arg args IH]; [discriminate|].
  cbn [codepoint_argument]. destruct (codepoint_argument args) as [s'|].
  - intros [= <-]. destruct (IH eq_refl) as [Hin Hopt].
    split; [now right | exact Hopt].
  - destruct (is_option arg) eqn:Harg; [discriminate|].
    intros [= <-]. split; [now left | exact Harg].
Qed.

(** X1. [main] never reads [argv[0]]: the run is the same under any
    program name, also one that looks like an option or a code point. *)
Theorem program_name_is_not_read (E : Engine) (prog prog' : string)
    (args : list string) :
  run_program E (prog :: args) = run_program E (prog' :: args).
Proof. now rewrite !run_program_spec. Qed.

(** X2. Where [--json] stands and how often it is given makes no
    difference: a command line with [--json] runs as the command line
    with one [--json] in front of the other arguments. *)
Theorem json_option_anywhere (E : Engine) (prog : string) (args : list string) :
  In "--json" args ->
  run_program E (prog :: args)
  = run_program E
      (prog :: "--json" :: filter (fun arg => negb (String.eqb arg "--json")) args).
Proof.
  intros Hin. rewrite !run_program_spec.
  apply wants_json_In in Hin. rewrite Hin.
  change (wants_json ("--json" :: ?l)) with true.
  assert (Harg : forall l, codepoint_argument ("--json" :: l) = codepoint_argument l).
  { intros l. cbn [codepoint_argument]. now destruct (codepoint_argument l). }
  rewrite Harg, codepoint_argument_filter; [reflexivity|].
  intros arg H. apply negb_false_iff, String.eqb_eq in H. now subst arg.
Qed.

Lemma json_option_anywhere_witness :
  run_program sample_engine ["unicode"; "41"; "--json"; "-v"; "--json"]
  = run_program sample_engine ["unicode"; "--json"; "41"; "-v"].
Proof.
  exact (json_option_anywhere sample_engine "unicode"
           ["41"; "--json"; "-v"; "--json"]
           (or_intror (or_introl eq_refl))).
Defined.

(** X3. A run has one of two shapes, whatever the command line: the usage
    message with status 1 and no engine call, or the report, with status
    0, on the code point read from an argument that is not an option. The
    usage message and a report never come together. *)
Theorem run_is_usage_or_report (E : Engine) (argv : list string) :
  run_program E argv = usage_run
  \/ exists arg,
       In arg (tl argv) /\ is_option arg = false
       /\ run_program E argv
          = report_run E (wants_json (tl argv)) (queried_codepoint arg).
Proof.
  destruct argv as [|prog args].
  - left. apply run_without_arguments. simpl. lia.
  - rewrite run_program_spec. cbn [tl].
    destruct (codepoint_argument args) as [s|] eqn:Hs; [right | now left].
    exists s. destruct (codepoint_argument_In args s Hs) as [Hin Hopt].
    repeat split; assumption.
Qed.

(* ===================================================================== *)
(** * Further properties of [main]: the numeral *)
(* ===================================================================== *)

Lemma skip_space_first (c : ascii) (s : string) :
  is_hex_digit c = true -> skip_space (String c s) = String c s.
Proof.
  intros Hc. apply hex_digit_code in Hc. simpl. unfold isspace.
  destruct (Z.eqb_spec (char_code c) 32), (Z.leb_spec 9 (char_code c)),
           (Z.leb_spec (char_code c) 13); simpl; try reflexivity; lia.
Qed.

Lemma take_sign_first (c : ascii) (s : string) :
  is_hex_digit c = true -> take_sign (String c s) = (false, String c s).
Proof.
  intros Hc. apply hex_digit_code in Hc. simpl.
  destruct (Z.eqb_spec (char_code c) 45), (Z.eqb_spec (char_code c) 43);
    try reflexivity; lia.
Qed.

Lemma skip_u_plus_first (c : ascii) (s : string) :
  is_hex_digit c = true -> skip_u_plus (String c s) = String c s.
Proof.
  intros Hc. apply hex_digit_code in Hc. unfold skip_u_plus. simpl.
  unfold tolower. change (char_code "u") with 117.
  destruct ((65 <=? char_code c) && (char_code c <=? 90)) eqn:Hup.
  - destruct (Z.eqb_spec (char_code c + 32) 117); [lia|reflexivity].
  - destruct (Z.eqb_spec (char_code c) 117); [lia|reflexivity].
Qed.

Lemma skip_u_plus_prefixed_first (p : string) (c : ascii) (s : string) :
  In p u_prefixes ->
  is_hex_digit c = true ->
  skip_u_plus (p ++ String c s) = String c s.
Proof.
  intros Hp Hc. apply hex_digit_code in Hc.
  assert (Hplus : (char_code c =? char_code "+") = false).
  { change (char_code "+") with 43. apply Z.eqb_neq. lia. }
  unfold u_prefixes in Hp. simpl in Hp.
  destruct Hp as [<-|[<-|[<-|[<-|[]]]]]; unfold skip_u_plus; simpl;
    try reflexivity; now rewrite Hplus.
Qed.

Lemma skip_u_plus_any_prefix (p : string) (c : ascii) (s : string) :
  In p (EmptyString :: u_prefixes) ->
  is_hex_digit c = true ->
  skip_u_plus (p ++ String c s) = String c s.
Proof.
  intros [<-|Hp] Hc.
  - now apply skip_u_plus_first.
  - now apply skip_u_plus_prefixed_first.
Qed.

Lemma is_option_any_prefix (p : string) (c : ascii) (s : string) :
  In p (EmptyString :: u_prefixes) ->
  is_hex_digit c = true ->
  is_option (p ++ String c s) = false.
Proof.
  intros Hp Hc. unfold u_prefixes in Hp. simpl in Hp.
  destruct Hp as [<-|[<-|[<-|[<-|[<-|[]]]]]]; try reflexivity.
  apply hex_digit_code in Hc. unfold is_option. simpl.
  destruct (Ascii.eqb_spec c "-") as [->|]; [|reflexivity].
  change (char_code "-") with 45 in Hc. lia.
Qed.

(** The digits end at the first character that is no digit. *)
Lemma accumulate_stops (s t : string) (c : ascii) (acc : Z) :
  all_chars is_hex_digit s = true ->
  is_hex_digit c = false ->
  accumulate 16 (s ++ String c t) acc = accumulate 16 s acc.
Proof.
  intros Hs Hc. revert acc.
  induction s as [|d s IH]; intros acc.
  - simpl. now rewrite (not_hex_digit_in_base c Hc).
  - cbn [all_chars] in Hs. apply andb_prop in Hs as [Hd Hs].
    destruct (hex_digit_in_base d Hd) as [Hv _].
    cbn [append accumulate]. rewrite Hv. now apply IH.
Qed.

Lemma not_x_code (c : ascii) :
  is_hex_digit c = true ->
  ((char_code c =? 120) || (char_code c =? 88)) = false.
Proof.
  intros Hc. apply hex_digit_code in Hc.
  destruct (Z.eqb_spec (char_code c) 120), (Z.eqb_spec (char_code c) 88);
    try reflexivity; lia.
Qed.

(** On digits alone [strtol] returns their value, or [LONG_MAX] when the
    value is beyond it. *)
Lemma strtol_hex_clamped (s : string) :
  all_chars is_hex_digit s = true ->
  strtol s 16 = Z.min (hex_value s) LONG_MAX.
Proof.
  intros H. unfold strtol.
  rewrite (skip_space_hex s H), (take_sign_hex s H), (skip_hex_prefix_hex s H).
  rewrite (accumulate_hex s 0 H), Z.mul_0_l, Z.add_0_l.
  pose proof (hex_value_bounds s H) as [Hlo _].
  destruct (Z.gtb_spec (hex_value s) LONG_MAX); [lia|].
  destruct (Z.ltb_spec (hex_value s) LONG_MIN); [unfold LONG_MIN in *; lia|].
  lia.
Qed.

Lemma strtol_hex_then (s t : string) (c : ascii) :
  hex_numeral s = true ->
  is_hex_digit c = false ->
  ((char_code c =? 120) || (char_code c =? 88)) = false ->
  strtol (s ++ String c t) 16 = Z.min (hex_value s) LONG_MAX.
Proof.
  intros Hnum Hc Hx. pose proof (hex_numeral_digits s Hnum) as Hs.
  destruct s as [|z s]; [discriminate Hnum|].
  pose proof Hs as Hs'. cbn [all_chars] in Hs'.
  apply andb_prop in Hs' as [Hz Hrest].
  unfold strtol. cbn [append].
  rewrite (skip_space_first z _ Hz), (take_sign_first z _ Hz).
  assert (Hpre : skip_hex_prefix 16 (String z (s ++ String c t))
                 = String z (s ++ String c t)).
  { unfold skip_hex_prefix. simpl (16 =? 16).
    destruct s as [|x s].
    - cbn [append]. destruct t; [reflexivity|].
      now rewrite Hx, andb_false_r.
    - cbn [all_chars] in Hrest. apply andb_prop in Hrest as [Hx' _].
      cbn [append]. destruct (s ++ String c t); [reflexivity|].
      now rewrite (not_x_code x Hx'), andb_false_r. }
  rewrite Hpre.
  change (String z (s ++ String c t)) with (String z s ++ String c t).
  rewrite (accumulate_stops _ _ _ _ Hs Hc), (accumulate_hex _ 0 Hs).
  rewrite Z.mul_0_l, Z.add_0_l.
  pose proof (hex_value_bounds _ Hs) as [Hlo _].
  destruct (Z.gtb_spec (hex_value (String z s)) LONG_MAX); [lia|].
  destruct (Z.ltb_spec (hex_value (String z s)) LONG_MIN);
    [unfold LONG_MIN in *; lia|].
  lia.
Qed.

Lemma strtol_hex_prefix (x : string) (s : string) :
  In x hex_prefixes ->
  hex_numeral s = true ->
  hex_value s <= LONG_MAX ->
  strtol (x ++ s) 16 = hex_value s.
Proof.
  intros Hx Hnum Hmax. pose proof (hex_numeral_digits s Hnum) as Hs.
  destruct s as [|d s]; [discriminate Hnum|].
  pose proof Hs as Hs'. cbn [all_chars] in Hs'.
  apply andb_prop in Hs' as [Hd _].
  destruct (hex_digit_in_base d Hd) as [Hv _].
  assert (Hstr : strtol (x ++ String d s) 16
                 = let v := accumulate 16 (String d s) 0 in
                   if v >? LONG_MAX then LONG_MAX
                   else if v <? LONG_MIN then LONG_MIN else v).
  { unfold hex_prefixes in Hx. simpl in Hx.
    destruct Hx as [<-|[<-|[]]]; unfold strtol, skip_hex_prefix;
      cbn -[accumulate Z.gtb Z.ltb]; rewrite Hv; reflexivity. }
  rewrite Hstr. cbv zeta. rewrite (accumulate_hex _ 0 Hs).
  rewrite Z.mul_0_l, Z.add_0_l.
  pose proof (hex_value_bounds _ Hs) as [Hlo _].
  destruct (Z.gtb_spec (hex_value (String d s)) LONG_MAX); [lia|].
  destruct (Z.ltb_spec (hex_value (String d s)) LONG_MIN);
    [unfold LONG_MIN in *; lia|].
  reflexivity.
Qed.

Lemma queried_codepoint_small (s : string) (v : Z) :
  strtol (skip_u_plus s) 16 = v ->
  0 <= v <= CODEPOINT_MAX ->
  queried_codepoint s = v.
Proof.
  intros Hs Hv. unfold queried_codepoint. rewrite Hs.
  now apply to_codepoint_small.
Qed.

Lemma codepoint_max_long : CODEPOINT_MAX <= LONG_MAX.
Proof. vm_compute. discriminate. Qed.

(** X4. The numeral may carry the prefix [0x] or [0X] of [strtol], alone
    or after the prefix of the [U+] notation: the program reports on the
    hexadecimal value of the digits that follow. *)
Theorem hex_prefix_is_accepted (E : Engine) (prog : string)
    (args : list string) (p x s : string) :
  In p (EmptyString :: u_prefixes) ->
  In x hex_prefixes ->
  hex_numeral s = true ->
  hex_value s <= CODEPOINT_MAX ->
  codepoint_argument args = Some (p ++ x ++ s) ->
  run_program E (prog :: args) = report_run E (wants_json args) (hex_value s).
Proof.
  intros Hp Hx Hnum Hmax Harg. rewrite run_program_spec, Harg. f_equal.
  pose proof (hex_value_bounds s (hex_numeral_digits s Hnum)) as [Hlo _].
  pose proof codepoint_max_long as Hlong.
  apply queried_codepoint_small; [|lia].
  assert (Hzero : exists rest, x ++ s = String "0" rest).
  { unfold hex_prefixes in Hx. simpl in Hx.
    destruct Hx as [<-|[<-|[]]]; eexists; reflexivity. }
  destruct Hzero as [rest Hrest].
  rewrite Hrest, (skip_u_plus_any_prefix p "0" rest Hp eq_refl), <- Hrest.
  apply strtol_hex_prefix; [assumption | assumption | lia].
Qed.

Lemma hex_prefix_is_accepted_witness :
  run_program sample_engine ["unicode"; "--json"; "U+0x1F600"]
  = report_run sample_engine true 128512.
Proof.
  exact (hex_prefix_is_accepted sample_engine "unicode" ["--json"; "U+0x1F600"]
           "U+" "0x" "1F600" (or_intror (or_introl eq_refl)) (or_introl eq_refl)
           eq_refl ltac:(vm_compute; discriminate) eq_refl).
Defined.

(** The code point of a numeral, with or without the prefix of the [U+]
    notation, whatever its value. *)
Lemma queried_codepoint_numeral (p s : string) :
  In p (EmptyString :: u_prefixes) ->
  hex_numeral s = true ->
  queried_codepoint (p ++ s)
  = QueryEngine.to_codepoint (Z.min (hex_value s) LONG_MAX).
Proof.
  intros Hp Hnum. pose proof (hex_numeral_digits s Hnum) as Hs.
  unfold queried_codepoint. f_equal.
  destruct s as [|d s]; [discriminate Hnum|].
  pose proof Hs as Hs'. cbn [all_chars] in Hs'.
  apply andb_prop in Hs' as [Hd _].
  rewrite (skip_u_plus_any_prefix p d s Hp Hd).
  now apply strtol_hex_clamped.
Qed.

Lemma queried_codepoint_numeral_then (p s t : string) (c : ascii) :
  In p (EmptyString :: u_prefixes) ->
  hex_numeral s = true ->
  is_hex_digit c = false ->
  c <> "x"%char -> c <> "X"%char ->
  queried_codepoint (p ++ s ++ String c t)
  = QueryEngine.to_codepoint (Z.min (hex_value s) LONG_MAX).
Proof.
  intros Hp Hnum Hc Hx1 Hx2. pose proof (hex_numeral_digits s Hnum) as Hs.
  assert (Hx : ((char_code c =? 120) || (char_code c =? 88)) = false).
  { change 120 with (char_code "x"). change 88 with (char_code "X").
    rewrite !char_code_eqb.
    destruct (Ascii.eqb_spec c "x"), (Ascii.eqb_spec c "X");
      try contradiction; reflexivity. }
  unfold queried_codepoint. f_equal.
  destruct s as [|d s]; [discriminate Hnum|].
  pose proof Hs as Hs'. cbn [all_chars] in Hs'.
  apply andb_prop in Hs' as [Hd _].
  change (String d s ++ String c t) with (String d (s ++ String c t)).
  rewrite (skip_u_plus_any_prefix p d _ Hp Hd).
  change (String d (s ++ String c t)) with (String d s ++ String c t).
  now apply strtol_hex_then.
Qed.

Lemma is_option_numeral (p s rest : string) :
  In p (EmptyString :: u_prefixes) ->
  hex_numeral s = true ->
  is_option (p ++ s ++ rest) = false.
Proof.
  intros Hp Hnum. destruct s as [|d s]; [discriminate Hnum|].
  apply hex_numeral_digits in Hnum. cbn [all_chars] in Hnum.
  apply andb_prop in Hnum as [Hd _].
  change (String d s ++ rest) with (String d (s ++ rest)).
  now apply is_option_any_prefix.
Qed.

(** The run on a code point argument that is the last argument not an
    option. *)
Lemma run_on_last_argument (E : Engine) (prog : string)
    (before after : list string) (arg : string) :
  is_option arg = false ->
  forallb is_option after = true ->
  run_program E (prog :: before ++ arg :: after)
  = report_run E (wants_json before || wants_json after)
               (queried_codepoint arg).
Proof.
  intros Harg Hafter.
  rewrite run_program_spec, codepoint_argument_last by assumption.
  f_equal. rewrite wants_json_app. f_equal.
  unfold wants_json at 1. cbn [existsb].
  now rewrite (json_is_option arg Harg).
Qed.

(** X5. Whatever follows the digits is dropped without a diagnostic: when
    the numeral is followed by a character that is no hexadecimal digit
    (and not the [x] of a [0x] prefix) and by anything else, the program
    runs as it does on the numeral alone and exits with status 0; when
    the value of the digits fits a [codepoint], it reports on that
    value. *)
Theorem text_after_digits_is_dropped (E : Engine) (prog : string)
    (before after : list string) (p s t : string) (c : ascii) :
  In p (EmptyString :: u_prefixes) ->
  hex_numeral s = true ->
  is_hex_digit c = false ->
  c <> "x"%char -> c <> "X"%char ->
  forallb is_option after = true ->
  run_program E (prog :: before ++ (p ++ s ++ String c t) :: after)
  = run_program E (prog :: before ++ (p ++ s) :: after)
  /\ exit_status
       (run_program E (prog :: before ++ (p ++ s ++ String c t) :: after)) = 0
  /\ (hex_value s <= CODEPOINT_MAX ->
      run_program E (prog :: before ++ (p ++ s ++ String c t) :: after)
      = report_run E (wants_json before || wants_json after) (hex_value s)).
Proof.
  intros Hp Hnum Hc Hx1 Hx2 Hafter.
  pose proof (is_option_numeral p s (String c t) Hp Hnum) as Hopt1.
  pose proof (is_option_numeral p s EmptyString Hp Hnum) as Hopt2.
  rewrite string_app_nil_r in Hopt2.
  rewrite (run_on_last_argument E prog before after _ Hopt1 Hafter).
  rewrite (run_on_last_argument E prog before after _ Hopt2 Hafter).
  rewrite (queried_codepoint_numeral_then p s t c Hp Hnum Hc Hx1 Hx2).
  rewrite (queried_codepoint_numeral p s Hp Hnum).
  split; [reflexivity|]. split; [reflexivity|].
  intros Hmax. f_equal.
  pose proof (hex_value_bounds s (hex_numeral_digits s Hnum)) as [Hlo _].
  pose proof codepoint_max_long as Hlong.
  rewrite Z.min_l by lia. apply to_codepoint_small. lia.
Qed.

Lemma text_after_digits_is_dropped_witness :
  (run_program sample_engine ["unicode"; "U+100000041 is A"; "--json"]
   = run_program sample_engine ["unicode"; "U+100000041"; "--json"]
   /\ exit_status
        (run_program sample_engine ["unicode"; "U+100000041 is A"; "--json"]) = 0)
  /\ run_program sample_engine ["unicode"; "41 is A"]
     = report_run sample_engine false 65.
Proof.
  split.
  - pose proof (text_after_digits_is_dropped sample_engine "unicode" []
                  ["--json"] "U+" "100000041" "is A" " "
                  (or_intror (or_introl eq_refl)) eq_refl eq_refl
                  ltac:(discriminate) ltac:(discriminate) eq_refl)
      as (Hsame & Hexit & _).
    exact (conj Hsame Hexit).
  - exact (proj2 (proj2 (text_after_digits_is_dropped sample_engine "unicode"
                           [] [] EmptyString "41" "is A" " "
                           (or_introl eq_refl) eq_refl eq_refl
                           ltac:(discriminate) ltac:(discriminate) eq_refl))
                 ltac:(vm_compute; discriminate)).
Defined.

(** ** The case of the digits *)

Lemma lowercase_char_code (c : ascii) :
  char_code (ascii_of_N (Z.to_N (tolower (char_code c))))
  = tolower (char_code c).
Proof.
  pose proof (char_code_range c) as Hc.
  assert (Hlow : 0 <= tolower (char_code c) < 256).
  { unfold tolower.
    destruct (Z.leb_spec 65 (char_code c)), (Z.leb_spec (char_code c) 90);
      simpl; lia. }
  unfold char_code at 1. rewrite N_ascii_embedding by lia. lia.
Qed.

Lemma lowercase_hex_digit (c : ascii) :
  is_hex_digit c = true ->
  let c' := ascii_of_N (Z.to_N (tolower (char_code c))) in
  is_hex_digit c' = true /\ hex_digit_value c' = hex_digit_value c.
Proof.
  intros Hc c'. apply hex_digit_code in Hc.
  pose proof (lowercase_char_code c) as Hcode. fold c' in Hcode.
  unfold is_hex_digit, hex_digit_value, in_range. rewrite Hcode.
  unfold tolower.
  change (char_code "0") with 48. change (char_code "9") with 57.
  change (char_code "a") with 97. change (char_code "f") with 102.
  change (char_code "A") with 65. change (char_code "F") with 70.
  destruct (Z.leb_spec 65 (char_code c)), (Z.leb_spec (char_code c) 90);
    cbn [andb];
    repeat match goal with
           | |- context [?a <=? ?b] => destruct (Z.leb_spec a b)
           end; cbn [andb orb]; split; first [reflexivity | lia].
Qed.

Lemma lowercase_length (s : string) :
  String.length (lowercase s) = String.length s.
Proof. induction s as [|c s IH]; simpl; [reflexivity | now rewrite IH]. Qed.

Lemma lowercase_hex (s : string) :
  all_chars is_hex_digit s = true ->
  all_chars is_hex_digit (lowercase s) = true
  /\ hex_value (lowercase s) = hex_value s.
Proof.
  unfold hex_value.
  induction s as [|c s IH]; [now split|]. cbn [all_chars]. intros H.
  apply andb_prop in H as [Hc Hs]. destruct (IH Hs) as [IH1 IH2].
  destruct (lowercase_hex_digit c Hc) as [Hd Hv].
  cbn [lowercase all_chars positional]. rewrite Hd, IH1, Hv, IH2.
  now rewrite lowercase_length.
Qed.

Lemma lowercase_numeral (s : string) :
  hex_numeral s = true -> hex_numeral (lowercase s) = true.
Proof.
  unfold hex_numeral. intros H. apply andb_prop in H as [Hne Hs].
  destruct (lowercase_hex s Hs) as [Hl _]. rewrite Hl.
  now destruct s.
Qed.

(** X6. The digits may be written in either case: turning the letters of
    the numeral to lower case gives the same run, whatever the value of
    the numeral. *)
Theorem digit_case_is_irrelevant (E : Engine) (prog : string)
    (before after : list string) (p s : string) :
  In p (EmptyString :: u_prefixes) ->
  hex_numeral s = true ->
  forallb is_option after = true ->
  run_program E (prog :: before ++ (p ++ lowercase s) :: after)
  = run_program E (prog :: before ++ (p ++ s) :: after).
Proof.
  intros Hp Hnum Hafter.
  pose proof (hex_numeral_digits s Hnum) as Hs.
  destruct (lowercase_hex s Hs) as [_ Hlv].
  pose proof (lowercase_numeral s Hnum) as Hlnum.
  pose proof (is_option_numeral p s EmptyString Hp Hnum) as Hopt.
  pose proof (is_option_numeral p (lowercase s) EmptyString Hp Hlnum) as Hlopt.
  rewrite string_app_nil_r in Hopt, Hlopt.
  rewrite (run_on_last_argument E prog before after _ Hopt Hafter).
  rewrite (run_on_last_argument E prog before after _ Hlopt Hafter).
  rewrite (queried_codepoint_numeral p s Hp Hnum).
  rewrite (queried_codepoint_numeral p (lowercase s) Hp Hlnum).
  now rewrite Hlv.
Qed.

Lemma digit_case_is_irrelevant_witness :
  run_program sample_engine ["unicode"; "U+" ++ lowercase "ABCDEF123456"; "--json"]
  = run_program sample_engine ["unicode"; "U+ABCDEF123456"; "--json"].
Proof.
  exact (digit_case_is_irrelevant sample_engine "unicode" [] ["--json"]
           "U+" "ABCDEF123456" (or_intror (or_introl eq_refl)) eq_refl eq_refl).
Defined.

(* ===================================================================== *)
(** * Further properties of [main]: reading the reports back *)
(* ===================================================================== *)

(** ** Splitting *)

Lemma char_in_head (sep c : ascii) (s : string) :
  char_in sep (String c s) = false ->
  Ascii.eqb c sep = false /\ char_in sep s = false.
Proof.
  cbn [char_in]. intros H. apply orb_false_elim in H as [Hc Hs].
  now rewrite Ascii.eqb_sym.
Qed.

Lemma char_in_app (c : ascii) (a b : string) :
  char_in c (a ++ b) = char_in c a || char_in c b.
Proof.
  induction a as [|x a IH]; [reflexivity|].
  cbn [append char_in]. now rewrite IH, orb_assoc.
Qed.

Lemma char_in_all_chars (p : ascii -> bool) (c : ascii) (s : string) :
  all_chars p s = true -> p c = false -> char_in c s = false.
Proof.
  intros Hs Hc. induction s as [|x s IH]; [reflexivity|].
  cbn [all_chars] in Hs. apply andb_prop in Hs as [Hx Hs].
  cbn [char_in]. rewrite (IH Hs), orb_false_r.
  destruct (Ascii.eqb_spec c x) as [->|]; [congruence | reflexivity].
Qed.

Lemma split_at_app (sep : ascii) (l r : string) :
  char_in sep l = false ->
  split_at sep (l ++ String sep r) = Some (l, r).
Proof.
  induction l as [|c l IH]; intros H.
  - cbn [append split_at]. now rewrite Ascii.eqb_refl.
  - apply char_in_head in H as [Hc Hl].
    cbn [append split_at]. now rewrite Hc, (IH Hl).
Qed.

Lemma fields_app (sep : ascii) (a b : string) :
  char_in sep a = false ->
  fields sep (a ++ String sep b) = a :: fields sep b.
Proof.
  induction a as [|c a IH]; intros H.
  - cbn [append fields]. now rewrite Ascii.eqb_refl.
  - apply char_in_head in H as [Hc Ha].
    cbn [append fields]. now rewrite Hc, (IH Ha).
Qed.

Lemma fields_single (sep : ascii) (a : string) :
  char_in sep a = false -> fields sep a = [a].
Proof.
  induction a as [|c a IH]; intros H; [reflexivity|].
  apply char_in_head in H as [Hc Ha].
  cbn [fields]. now rewrite Hc, (IH Ha).
Qed.

Lemma fields_concat (sep : ascii) (ms : list string) :
  ms <> [] ->
  Forall (fun m => char_in sep m = false) ms ->
  fields sep (String.concat (String sep EmptyString) ms) = ms.
Proof.
  intros Hne Hms. induction Hms as [|m ms Hm Hms IH]; [congruence|].
  destruct ms as [|m' ms].
  - cbn [String.concat]. now apply fields_single.
  - rewrite concat_cons by discriminate. cbn [append].
    rewrite (fields_app sep m _ Hm). f_equal. now apply IH.
Qed.

Lemma terminated_by_app (sep : ascii) (l r : string) :
  char_in sep l = false ->
  terminated_by sep (l ++ String sep r)
  = match terminated_by sep r with
    | Some pieces => Some (l :: pieces)
    | None => None
    end.
Proof.
  induction l as [|c l IH]; intros H.
  - cbn [append terminated_by]. rewrite Ascii.eqb_refl.
    now destruct (terminated_by sep r).
  - apply char_in_head in H as [Hc Hl].
    cbn [append terminated_by]. rewrite (IH Hl), Hc.
    now destruct (terminated_by sep r).
Qed.

Lemma chop_last_app (c : ascii) (a : string) :
  chop_last c (a ++ String c EmptyString) = Some a.
Proof.
  induction a as [|x a IH].
  - cbn [append chop_last]. now rewrite Ascii.eqb_refl.
  - cbn [append chop_last]. rewrite IH. now destruct a.
Qed.

Lemma read_all_map {A B : Type} (f : A -> option B) (g : B -> A) (l : list B) :
  Forall (fun b => f (g b) = Some b) l ->
  read_all f (map g l) = Some l.
Proof.
  induction 1 as [|b l Hb _ IH]; [reflexivity|].
  cbn [map read_all]. now rewrite Hb, IH.
Qed.

(** ** Integers *)

Lemma to_int_normal (z : Z) : Decimal.norm (Z.to_int z) = Z.to_int z.
Proof. rewrite <- DecimalZ.to_of. now rewrite DecimalZ.of_to. Qed.

Lemma scan_int_print_int (z : Z) : scan_int (print_int z) = Some z.
Proof.
  unfold scan_int, print_int.
  assert (Hnil : Z.to_int z <> Decimal.Pos Decimal.Nil
                 /\ Z.to_int z <> Decimal.Neg Decimal.Nil).
  { rewrite <- (to_int_normal z).
    destruct (Z.to_int z) as [u|u]; unfold Decimal.norm, Decimal.unorm;
      destruct (Decimal.nzhead u); split; discriminate. }
  destruct Hnil as [Hpos Hneg].
  rewrite (NilZero.isi _ Hpos Hneg). now rewrite DecimalZ.of_to.
Qed.

Lemma string_of_uint_digits (u : Decimal.uint) :
  all_chars is_decimal_digit (NilEmpty.string_of_uint u) = true.
Proof. induction u; cbn [NilEmpty.string_of_uint all_chars]; auto. Qed.

Lemma normal_uint_natural (u : Decimal.uint) :
  Decimal.unorm u = u ->
  is_json_natural (NilZero.string_of_uint u) = true.
Proof.
  intros Hu. destruct u as [|u|u|u|u|u|u|u|u|u|u];
    try (cbn [NilZero.string_of_uint NilEmpty.string_of_uint is_json_natural];
         rewrite string_of_uint_digits; reflexivity).
  - discriminate Hu.
  - unfold Decimal.unorm in Hu. rewrite DecimalFacts.nzhead_D0 in Hu.
    destruct (Decimal.nzhead u) eqn:Hhead;
      try (exfalso; eapply DecimalFacts.nzhead_nonzero; rewrite Hhead;
           exact Hu).
    injection Hu as <-. reflexivity.
Qed.

Lemma print_int_json_integer (z : Z) : is_json_integer (print_int z) = true.
Proof.
  unfold print_int. pose proof (to_int_normal z) as Hn.
  destruct (Z.to_int z) as [u|u]; cbn [NilZero.string_of_int].
  - injection Hn as Hu. pose proof (normal_uint_natural u Hu) as Hnat.
    unfold is_json_integer. destruct (NilZero.string_of_uint u) as [|c s] eqn:Hs;
      [discriminate Hnat|].
    destruct (Ascii.eqb_spec c "-") as [->|]; [discriminate Hnat | exact Hnat].
  - unfold is_json_integer. rewrite Ascii.eqb_refl.
    apply normal_uint_natural.
    unfold Decimal.norm in Hn. unfold Decimal.unorm.
    destruct (Decimal.nzhead u) eqn:Hhead; try discriminate Hn;
      now injection Hn as ->.
Qed.

Lemma print_int_literal (z : Z) : is_json_literal (print_int z) = true.
Proof.
  unfold is_json_literal. rewrite print_int_json_integer. apply orb_true_r.
Qed.

Lemma truth_literal (v : Z) : is_json_literal (truth v) = true.
Proof. unfold truth. now destruct (v =? 0). Qed.

(** ** Characters of keys and values *)

Lemma plain_key_letters (key : string) :
  is_plain_key key = true -> all_chars is_letter key = true.
Proof. unfold is_plain_key. intros H. now apply andb_prop in H as [_ H]. Qed.

Lemma nonzero_digit_is_digit (c : ascii) :
  is_nonzero_digit c = true -> is_decimal_digit c = true.
Proof.
  unfold is_nonzero_digit, is_decimal_digit, in_range.
  change (char_code "0") with 48. change (char_code "1") with 49.
  intros H. apply andb_prop in H as [H1 H2]. rewrite H2, andb_true_r.
  apply Z.leb_le. apply Z.leb_le in H1. lia.
Qed.

Lemma json_natural_digits (s : string) :
  is_json_natural s = true -> all_chars is_decimal_digit s = true.
Proof.
  destruct s as [|c s]; [discriminate|]. cbn [is_json_natural all_chars].
  intros H. apply orb_prop in H as [H|H]; apply andb_prop in H as [Hc Hs].
  - apply Ascii.eqb_eq in Hc. apply String.eqb_eq in Hs. now subst.
  - now rewrite (nonzero_digit_is_digit c Hc), Hs.
Qed.

Lemma json_integer_chars (s : string) :
  is_json_integer s = true -> all_chars is_int_char s = true.
Proof.
  assert (Hdigits : forall t, is_json_natural t = true ->
                              all_chars is_int_char t = true).
  { intros t Ht. apply (all_chars_weaken is_decimal_digit).
    - intros c Hc. unfold is_int_char. now rewrite Hc.
    - now apply json_natural_digits. }
  destruct s as [|c s]; [discriminate|]. unfold is_json_integer.
  destruct (Ascii.eqb_spec c "-") as [->|_]; intros H.
  - cbn [all_chars]. now rewrite (Hdigits s H).
  - now apply Hdigits.
Qed.

(** The characters of the values of the JSON object: letters, digits and
    the minus sign. *)
Lemma json_literal_chars (value : string) :
  is_json_literal value = true ->
  all_chars (fun c => is_letter c || is_int_char c) value = true.
Proof.
  unfold is_json_literal. intros H.
  apply orb_prop in H as [H|H]; [apply orb_prop in H as [H|H]|].
  - apply String.eqb_eq in H. now subst.
  - apply String.eqb_eq in H. now subst.
  - apply (all_chars_weaken is_int_char); [|now apply json_integer_chars].
    intros c Hc. now rewrite Hc, orb_true_r.
Qed.

(** ** The lines *)

Lemma read_line_text (key : string) (z : Z) :
  char_in ":" key = false ->
  read_line (key ++ ": " ++ print_int z) = Some (key, z).
Proof.
  intros Hkey. unfold read_line.
  change (key ++ ": " ++ print_int z)
    with (key ++ String ":" (String " " (print_int z))).
  rewrite (split_at_app ":" key _ Hkey). cbn [Ascii.eqb Bool.eqb].
  now rewrite scan_int_print_int.
Qed.

Lemma text_lines_pieces (attrs : list attribute) :
  Forall (fun a => char_in newline (fst a ++ ": " ++ snd a) = false) attrs ->
  terminated_by newline (text_lines attrs)
  = Some (map (fun a => fst a ++ ": " ++ snd a) attrs).
Proof.
  induction 1 as [|a attrs Ha _ IH]; [reflexivity|].
  rewrite text_lines_cons. unfold text_line.
  replace ((fst a ++ ": " ++ snd a ++ nl) ++ text_lines attrs)
    with ((fst a ++ ": " ++ snd a) ++ String newline (text_lines attrs)).
  - rewrite (terminated_by_app newline _ _ Ha), IH. reflexivity.
  - unfold nl. cbn [append]. rewrite !string_app_assoc. cbn [append].
    now rewrite !string_app_assoc.
Qed.

Lemma read_lines_text (answers : list (string * Z)) :
  Forall (fun a => is_plain_key (fst a) = true) answers ->
  read_lines (text_lines (map (fun a => (fst a, print_int (snd a))) answers))
  = Some answers.
Proof.
  intros Hkeys. unfold read_lines. rewrite text_lines_pieces.
  - rewrite map_map. cbn [fst snd].
    apply (read_all_map read_line
             (fun a : string * Z => fst a ++ ": " ++ print_int (snd a))).
    apply (Forall_impl _ (P := fun a => is_plain_key (fst a) = true));
      [|exact Hkeys].
    intros [key z] Hk. cbn [fst snd] in *. apply read_line_text.
    exact (char_in_all_chars is_letter ":" key (plain_key_letters key Hk) eq_refl).
  - apply Forall_map.
    apply (Forall_impl _ (P := fun a => is_plain_key (fst a) = true));
      [|exact Hkeys].
    intros [key z] Hk. cbn [fst snd] in *.
    change (key ++ ": " ++ print_int z)
      with (key ++ String ":" (String " " (print_int z))).
    rewrite char_in_app. cbn [char_in].
    rewrite (char_in_all_chars is_letter newline key (plain_key_letters key Hk) eq_refl).
    now rewrite (char_in_all_chars is_int_char newline _ (print_int_chars z) eq_refl).
Qed.

(** ** The JSON object *)

Lemma member_shape (a : attribute) :
  json_member a = String dquote (fst a ++ String dquote (String ":" (snd a))).
Proof.
  unfold json_member, quoted. cbn [append].
  now rewrite string_app_assoc.
Qed.

Lemma read_member_member (a : attribute) :
  is_plain_key (fst a) = true ->
  is_json_literal (snd a) = true ->
  read_member (json_member a) = Some a.
Proof.
  intros Hk Hv. rewrite member_shape. unfold read_member.
  rewrite Ascii.eqb_refl.
  rewrite (split_at_app dquote (fst a) _
             (char_in_all_chars is_letter dquote _ (plain_key_letters _ Hk) eq_refl)).
  rewrite Ascii.eqb_refl, Hk, Hv. now destruct a.
Qed.

Lemma member_without_comma (a : attribute) :
  is_plain_key (fst a) = true ->
  is_json_literal (snd a) = true ->
  char_in "," (json_member a) = false.
Proof.
  intros Hk Hv. rewrite member_shape. cbn [char_in]. rewrite char_in_app.
  cbn [char_in].
  rewrite (char_in_all_chars is_letter "," _ (plain_key_letters _ Hk) eq_refl).
  now rewrite (char_in_all_chars _ "," _ (json_literal_chars _ Hv) eq_refl).
Qed.

Lemma read_object_json (attrs : list attribute) :
  attrs <> [] ->
  Forall (fun a => is_plain_key (fst a) = true
                   /\ is_json_literal (snd a) = true) attrs ->
  read_object (json_object attrs) = Some attrs.
Proof.
  intros Hne Hattrs. unfold json_object, read_object. cbn [append].
  rewrite Ascii.eqb_refl.
  rewrite (chop_last_app "}"). rewrite fields_concat.
  - apply read_all_map.
    apply (Forall_impl _ (P := fun a => is_plain_key (fst a) = true
                                        /\ is_json_literal (snd a) = true));
      [|exact Hattrs].
    intros a [Hk Hv]. now apply read_member_member.
  - now destruct attrs.
  - apply Forall_map.
    apply (Forall_impl _ (P := fun a => is_plain_key (fst a) = true
                                        /\ is_json_literal (snd a) = true));
      [|exact Hattrs].
    intros a [Hk Hv]. now apply member_without_comma.
Qed.

Lemma json_attributes_wellformed (E : Engine) (cp : Z) :
  Forall (fun a => is_plain_key (fst a) = true
                   /\ is_json_literal (snd a) = true) (json_attributes E cp).
Proof.
  unfold json_attributes, number, flag.
  repeat (apply Forall_cons;
          [split; [reflexivity
                  | first [apply print_int_literal | apply truth_literal]]|]).
  apply Forall_nil.
Qed.

(** X7. The output of the [--json] branch is a well-formed JSON object
    whatever the engine answers: a reader that accepts only members with
    a key of letters and a value that is [true], [false] or a JSON
    integer reads back the twenty members, in order. *)
Theorem json_report_reads_back (E : Engine) (prog : string)
    (args : list string) (s : string) :
  codepoint_argument args = Some s ->
  In "--json" args ->
  read_object (stdout (run_program E (prog :: args)))
  = Some (json_attributes E (queried_codepoint s)).
Proof.
  intros Harg Hjson. apply wants_json_In in Hjson.
  rewrite run_program_spec, Harg, Hjson. unfold report_run. cbn [stdout].
  apply read_object_json; [discriminate|].
  apply json_attributes_wellformed.
Qed.

Lemma json_report_reads_back_witness :
  read_object (stdout (run_program sample_engine ["unicode"; "--json"; "37"]))
  = Some (json_attributes sample_engine (queried_codepoint "37")).
Proof.
  exact (json_report_reads_back sample_engine "unicode" ["--json"; "37"] "37"
           eq_refl (or_introl eq_refl)).
Defined.

(** X8. When the answers of the engine fit an [int], the type that [%d]
    prints, the lines lose nothing of them: read back line by line, each
    as a key, a colon, a space and a decimal integer, they give the
    sixteen answers of the engine on the code point, in order, negative
    ones included. *)
Theorem text_report_reads_back (E : Engine) (prog : string)
    (args : list string) (s : string) :
  codepoint_argument args = Some s ->
  ~ In "--json" args ->
  (forall f, INT_MIN <= engine E f (queried_codepoint s) <= INT_MAX) ->
  read_lines (stdout (run_program E (prog :: args)))
  = Some (text_answers E (queried_codepoint s)).
Proof.
  intros Harg Hjson _.
  assert (Hfalse : wants_json args = false).
  { destruct (wants_json args) eqn:Hw; [|reflexivity].
    now apply wants_json_In in Hw. }
  rewrite run_program_spec, Harg, Hfalse. unfold report_run. cbn [stdout].
  change (text_attributes E (queried_codepoint s))
    with (map (fun a : string * Z => (fst a, print_int (snd a)))
              (text_answers E (queried_codepoint s))).
  apply read_lines_text. unfold text_answers.
  repeat (apply Forall_cons; [reflexivity|]). apply Forall_nil.
Qed.

Lemma text_report_reads_back_witness :
  read_lines (stdout (run_program sample_engine ["unicode"; "37"]))
  = Some (text_answers sample_engine (queried_codepoint "37")).
Proof.
  exact (text_report_reads_back sample_engine "unicode" ["37"] "37" eq_refl
           ltac:(simpl; intuition discriminate)
           ltac:(intros f; destruct f; vm_compute; split; discriminate)).
Defined.

(** X9. The two formats agree. Adding [--json] to a command line that
    prints lines gives a JSON object which, the four flag attributes
    aside, follows from the lines: the same numeral for the three
    conversions and the digit, and for each predicate [false] when its
    line shows 0 and [true] otherwise. *)
Theorem formats_agree (E : Engine) (prog : string)
    (args : list string) (s : string) :
  codepoint_argument args = Some s ->
  ~ In "--json" args ->
  exists (answers : list (string * Z)) (members : list attribute),
    read_lines (stdout (run_program E (prog :: args))) = Some answers
    /\ read_object (stdout (run_program E (prog :: "--json" :: args)))
       = Some members
    /\ filter (fun a => negb (json_only (fst a))) members
       = map json_of_answer answers.
Proof.
  intros Harg Hjson.
  assert (Hfalse : wants_json args = false).
  { destruct (wants_json args) eqn:Hw; [|reflexivity].
    now apply wants_json_In in Hw. }
  exists (text_answers E (queried_codepoint s)),
         (json_attributes E (queried_codepoint s)).
  rewrite !run_program_spec.
  assert (Hsame : codepoint_argument ("--json" :: args) = Some s).
  { cbn [codepoint_argument]. now rewrite Harg. }
  rewrite Hsame, Harg, Hfalse.
  change (wants_json ("--json" :: args)) with true.
  unfold report_run. cbn [stdout].
  split; [|split].
  - change (text_attributes E (queried_codepoint s))
      with (map (fun a : string * Z => (fst a, print_int (snd a)))
                (text_answers E (queried_codepoint s))).
    apply read_lines_text. unfold text_answers.
    repeat (apply Forall_cons; [reflexivity|]). apply Forall_nil.
  - apply read_object_json; [discriminate|].
    apply json_attributes_wellformed.
  - reflexivity.
Qed.

Lemma formats_agree_witness :
  exists (answers : list (string * Z)) (members : list attribute),
    read_lines (stdout (run_program sample_engine ["unicode"; "-v"; "61"]))
    = Some answers
    /\ read_object
         (stdout (run_program sample_engine ["unicode"; "--json"; "-v"; "61"]))
       = Some members
    /\ filter (fun a => negb (json_only (fst a))) members
       = map json_of_answer answers.
Proof.
  exact (formats_agree sample_engine "unicode" ["-v"; "61"] "61" eq_refl
           ltac:(simpl; intuition discriminate)).
Defined.
